(** * A link checker built from goroutines and one unbuffered channel

    The program under study is [src/main.go]: [main] starts one [checkLink]
    goroutine per configured link, then ranges over the channel [c] and, for
    every link it receives, starts a goroutine that sleeps five seconds and
    calls [checkLink] again.

    The Go statements are embedded as a small process syntax ([Proc]); the
    Go runtime (goroutine pool, rendezvous on an unbuffered channel, timers,
    process exit and the deadlock detector) is an executable step function
    over an explicit state, driven by a list of scheduler choices. *)

From Stdlib Require Import ZArith Lia.
From stdpp Require Import base option list strings.

Local Open Scope Z_scope.

(** ** Package [time] *)

Module Time.
(** [type Duration int64], counted in nanoseconds. *)
Abbreviation Duration := Z (only parsing).
Definition Nanosecond : Duration := 1.
Definition Microsecond : Duration := 1000 * Nanosecond.
Definition Millisecond : Duration := 1000 * Microsecond.
Definition Second : Duration := 1000 * Millisecond.

Definition int64_min : Z := - 2 ^ 63.
Definition int64_max : Z := 2 ^ 63 - 1.
Definition fits_int64 (d : Z) : bool := (int64_min <=? d) && (d <=? int64_max).
End Time.

(** ** Package [net/http], as far as the program looks at it *)

Module Http.
(** [http.Get] returns [(resp *Response, err error)]: a completed exchange
    carries a response, whatever its status code, and a [nil] error; a
    request that could not be completed carries a non-[nil] error. *)
Record Response := { StatusCode : Z }.
Definition error := option string.
Definition Result : Type := option Response * error.

Definition completed (status : Z) : Result := (Some {| StatusCode := status |}, None).
Definition failed (msg : string) : Result := (None, Some msg).
End Http.

(** ** Package [fmt] *)

Module Fmt.
Definition newline : string := String (Ascii.ascii_of_nat 10) EmptyString.

(** [fmt.Println] writes its operands separated by single spaces and ends
    the line. *)
Definition Sprintln (args : list string) : string :=
  String.append (String.concat " " args) newline.

Fixpoint count_newlines (s : string) : nat :=
  match s with
  | EmptyString => O
  | String a rest =>
      (if Ascii.eqb a (Ascii.ascii_of_nat 10) then 1 else 0)%nat + count_newlines rest
  end.
End Fmt.

(** ** Process syntax *)

(** Channels are named by the order of their creation. *)
Definition chan := nat.

(** One constructor per kind of statement the program uses, each carrying
    the rest of the goroutine.  [Return] ends the goroutine's function. *)
Inductive Proc : Type :=
| Return
| Make (k : chan -> Proc)                                   (* c := make(chan string) *)
| Go (child : Proc) (k : Proc)                              (* go f(...) *)
| Send (c : chan) (v : string) (k : Proc)                   (* c <- v *)
| ForRange (c : chan) (body : string -> Proc) (after : Proc) (* for l := range c { body } *)
| Close (c : chan) (k : Proc)                               (* close(c) *)
| HttpGet (url : string) (k : Http.Result -> Proc)          (* _, err := http.Get(url) *)
| Println (args : list string) (k : Proc)                   (* fmt.Println(args...) *)
| Sleep (d : Time.Duration) (k : Proc).                     (* time.Sleep(d) *)

(** Sequencing: the statements of [p], then [q]. *)
Fixpoint and_then (p q : Proc) : Proc :=
  match p with
  | Return => q
  | Make k => Make (fun c => and_then (k c) q)
  | Go child k => Go child (and_then k q)
  | Send c v k => Send c v (and_then k q)
  | ForRange c body after => ForRange c body (and_then after q)
  | Close c k => Close c (and_then k q)
  | HttpGet url k => HttpGet url (fun r => and_then (k r) q)
  | Println args k => Println args (and_then k q)
  | Sleep d k => Sleep d (and_then k q)
  end.

(** ** The program *)

(** [links], lines 10-16. *)
Definition links : list string :=
  [ "http://google.com";
    "http://facebook.com";
    "http://stackoverflow.com";
    "http://golang.org";
    "http://amazon.com" ].

(** The part of [checkLink] that follows [http.Get], lines 40-47. *)
Definition report (link : string) (c : chan) (r : Http.Result) : Proc :=
  match snd r with
  | Some _ =>                                   (* err != nil *)
      Println [link; "might be down!"]
        (Send c link
           Return)
  | None =>
      Println [link; "is up!"]
        (Send c link
           Return)
  end.

(** [func checkLink(link string, c chan string)], lines 38-48. *)
Definition checkLink (link : string) (c : chan) : Proc :=
  HttpGet link (report link c).

(** The argument of [time.Sleep] on line 30. *)
Definition delay : Time.Duration := 5 * Time.Second.

(** The function literal of lines 29-32, applied to [link]; the call of
    [checkLink] is its last statement. *)
Definition relaunch (link : string) (c : chan) : Proc :=
  Sleep delay
    (checkLink link c).

(** The second loop of [main], lines 28-33. *)
Definition receive_loop (c : chan) : Proc :=
  ForRange c (fun l => Go (relaunch l c) Return)
    Return.

(** The first loop of [main], lines 20-22, followed by [k]. *)
Fixpoint spawn_checks (ls : list string) (c : chan) (k : Proc) : Proc :=
  match ls with
  | [] => k
  | link :: rest => Go (checkLink link c) (spawn_checks rest c k)
  end.

(** [main] over an arbitrary list of links, and [main] as written. *)
Definition main_with (ls : list string) : Proc :=
  Make (fun c =>
    spawn_checks ls c
      (receive_loop c)).

Definition main : Proc := main_with links.

(** ** The runtime *)

(** A goroutine is running its code, blocked inside [http.Get], or blocked
    inside [time.Sleep] until its timer fires. *)
Inductive Thread : Type :=
| Running (p : Proc)
| Probing (url : string) (k : Http.Result -> Proc)
| Sleeping (until : Z) (k : Proc).

Inductive Status : Type :=
| Live
| Exited                   (* main returned *)
| Fatal (msg : string).    (* runtime panic or fatal error *)

Record State : Type := mkState {
  now : Z;                    (* the clock, in nanoseconds *)
  threads : list Thread;      (* goroutine 0 is main *)
  nchan : nat;                (* channels made so far *)
  closed : list chan;         (* the closed ones *)
  stdout : string;
  status : Status
}.

(** What the scheduler and the environment may decide. *)
Inductive Action : Type :=
| ARun (i : nat)                         (* goroutine [i] executes its next statement *)
| AComm (i j : nat)                      (* [i] sends and [j] receives, in one hand-off *)
| AGetDone (i : nat) (r : Http.Result)   (* the request of [i] ends with [r] *)
| AWake (i : nat)                        (* the timer of [i] fires *)
| ATick (d : Z)                          (* [d] nanoseconds pass *)
| AExit                                  (* main has returned: the process exits *)
| ADeadlock.                             (* the runtime finds every goroutine asleep *)

Definition is_closed (s : State) (c : chan) : bool := bool_decide (c ∈ closed s).

Definition set_thread (s : State) (i : nat) (t : Thread) : State :=
  mkState (now s) (<[i := t]> (threads s)) (nchan s) (closed s) (stdout s) (status s).

Definition add_thread (s : State) (t : Thread) : State :=
  mkState (now s) (threads s ++ [t]) (nchan s) (closed s) (stdout s) (status s).

Definition set_status (s : State) (st : Status) : State :=
  mkState (now s) (threads s) (nchan s) (closed s) (stdout s) st.

(** A goroutine is asleep for the deadlock detector when it waits on an open
    channel; finished goroutines no longer exist.  Goroutines inside
    [http.Get] wait on the network poller and goroutines inside [time.Sleep]
    on a timer: neither counts as asleep. *)
Definition waits_send (s : State) (t : Thread) : option chan :=
  match t with
  | Running (Send c _ _) => if is_closed s c then None else Some c
  | _ => None
  end.

Definition waits_recv (s : State) (t : Thread) : option chan :=
  match t with
  | Running (ForRange c _ _) => if is_closed s c then None else Some c
  | _ => None
  end.

Definition finished (t : Thread) : bool :=
  match t with
  | Running Return => true
  | _ => false
  end.

Definition asleep (s : State) (t : Thread) : bool :=
  finished t || bool_decide (is_Some (waits_send s t)) || bool_decide (is_Some (waits_recv s t)).

Definition can_comm (s : State) : bool :=
  existsb (fun c => bool_decide (c ∈ omap (waits_recv s) (threads s)))
    (omap (waits_send s) (threads s)).

Definition main_returned (s : State) : bool :=
  match threads s !! O with
  | Some t => finished t
  | None => false
  end.

Definition deadlocked (s : State) : bool :=
  forallb (asleep s) (threads s) && negb (main_returned s) && negb (can_comm s).

Definition deadlock_msg : string := "all goroutines are asleep - deadlock!".

(** The next statement of goroutine [i], when it does not have to wait for
    another goroutine. *)
Definition run_thread (s : State) (i : nat) (p : Proc) : option State :=
  match p with
  | Return => None
  | Make k =>
      Some (mkState (now s) (<[i := Running (k (nchan s))]> (threads s))
              (S (nchan s)) (closed s) (stdout s) (status s))
  | Go child k => Some (add_thread (set_thread s i (Running k)) (Running child))
  | Send c _ _ =>
      if is_closed s c then Some (set_status s (Fatal "send on closed channel")) else None
  | ForRange c _ after =>
      if is_closed s c then Some (set_thread s i (Running after)) else None
  | Close c k =>
      if is_closed s c then Some (set_status s (Fatal "close of closed channel"))
      else Some (mkState (now s) (<[i := Running k]> (threads s))
                   (nchan s) (c :: closed s) (stdout s) (status s))
  | HttpGet url k => Some (set_thread s i (Probing url k))
  | Println args k =>
      Some (mkState (now s) (<[i := Running k]> (threads s))
              (nchan s) (closed s) (String.append (stdout s) (Fmt.Sprintln args)) (status s))
  | Sleep d k => Some (set_thread s i (Sleeping (now s + d) k))
  end.

Definition live_step (s : State) (a : Action) : option State :=
  match a with
  | ARun i =>
      match threads s !! i with
      | Some (Running p) => run_thread s i p
      | _ => None
      end
  | AComm i j =>
      match threads s !! i, threads s !! j with
      | Some (Running (Send c v k)), Some (Running (ForRange c' body after)) =>
          if bool_decide (c = c') && negb (is_closed s c) then
            Some (set_thread (set_thread s i (Running k)) j
                    (Running (and_then (body v) (ForRange c' body after))))
          else None
      | _, _ => None
      end
  | AGetDone i r =>
      match threads s !! i with
      | Some (Probing _ k) => Some (set_thread s i (Running (k r)))
      | _ => None
      end
  | AWake i =>
      match threads s !! i with
      | Some (Sleeping until k) =>
          if until <=? now s then Some (set_thread s i (Running k)) else None
      | _ => None
      end
  | ATick d =>
      if 0 <? d then
        Some (mkState (now s + d) (threads s) (nchan s) (closed s) (stdout s) (status s))
      else None
  | AExit => if main_returned s then Some (set_status s Exited) else None
  | ADeadlock => if deadlocked s then Some (set_status s (Fatal deadlock_msg)) else None
  end.

(** Nothing happens once the process has exited or died. *)
Definition step (s : State) (a : Action) : option State :=
  match status s with
  | Live => live_step s a
  | _ => None
  end.

Fixpoint run (s : State) (acts : list Action) : option State :=
  match acts with
  | [] => Some s
  | a :: rest =>
      match step s a with
      | Some s' => run s' rest
      | None => None
      end
  end.

(** The process at its start: one goroutine, no channel, an empty output. *)
Definition start (p : Proc) : State := mkState 0 [Running p] O [] EmptyString Live.

(** A state with the fatal error of the deadlock detector. *)
Definition dead_state (s : State) : State := set_status s (Fatal deadlock_msg).

(** ** The shapes the goroutines of [main] take

    Every goroutine other than main works on one link and is at one of
    seven places of [checkLink] or of the function literal; main is before
    [make], inside its first loop, at the receive, or between a receive and
    the [go] statement that follows it.  This first-order description is
    mapped back to the runtime state by [conc]; [astep] is the step function
    read through that map. *)

Inductive Phase : Type :=
| PCheck                     (* about to call http.Get *)
| PProbing                   (* inside http.Get *)
| PReport (r : Http.Result)  (* http.Get returned r; about to print *)
| PSend                      (* at c <- link *)
| PDone                      (* returned *)
| PRelaunch                  (* about to call time.Sleep *)
| PSleeping (until : Z).     (* inside time.Sleep *)

Inductive MainPhase : Type :=
| MStart                          (* before make *)
| MSpawning (rest : list string)  (* first loop, [rest] still to launch; [[]] is the receive *)
| MHold (l : string).             (* received l, about to launch its relaunch task *)

Record Abs : Type := mkAbs {
  a_now : Z;
  a_main : MainPhase;
  a_workers : list (string * Phase);
  a_out : string
}.

Definition worker_thread (c : chan) (w : string * Phase) : Thread :=
  match snd w with
  | PCheck => Running (checkLink (fst w) c)
  | PProbing => Probing (fst w) (report (fst w) c)
  | PReport r => Running (report (fst w) c r)
  | PSend => Running (Send c (fst w) Return)
  | PDone => Running Return
  | PRelaunch => Running (relaunch (fst w) c)
  | PSleeping u => Sleeping u (checkLink (fst w) c)
  end.

Definition active (w : string * Phase) : option string :=
  match snd w with
  | PDone => None
  | _ => Some (fst w)
  end.

Definition is_done (w : string * Phase) : bool :=
  match snd w with
  | PDone => true
  | _ => false
  end.

Definition phase_output (l : string) (r : Http.Result) : string :=
  match snd r with
  | Some _ => Fmt.Sprintln [l; "might be down!"]
  | None => Fmt.Sprintln [l; "is up!"]
  end.

Section Shapes.
Variable ls : list string.

Definition main_thread (m : MainPhase) : Thread :=
  match m with
  | MStart => Running (main_with ls)
  | MSpawning rest => Running (spawn_checks rest O (receive_loop O))
  | MHold l => Running (Go (relaunch l O) (receive_loop O))
  end.

Definition conc (a : Abs) : State :=
  mkState (a_now a)
    (main_thread (a_main a) :: map (worker_thread O) (a_workers a))
    (match a_main a with MStart => O | _ => 1%nat end)
    [] (a_out a) Live.

Definition set_worker (a : Abs) (i : nat) (w : string * Phase) : Abs :=
  mkAbs (a_now a) (a_main a) (<[i := w]> (a_workers a)) (a_out a).

Definition main_step (a : Abs) : option Abs :=
  match a_main a with
  | MStart => Some (mkAbs (a_now a) (MSpawning ls) (a_workers a) (a_out a))
  | MSpawning [] => None
  | MSpawning (l :: rest) =>
      Some (mkAbs (a_now a) (MSpawning rest) (a_workers a ++ [(l, PCheck)]) (a_out a))
  | MHold l =>
      Some (mkAbs (a_now a) (MSpawning []) (a_workers a ++ [(l, PRelaunch)]) (a_out a))
  end.

Definition worker_step (a : Abs) (i : nat) (w : string * Phase) : option Abs :=
  match snd w with
  | PCheck => Some (set_worker a i (fst w, PProbing))
  | PReport r =>
      Some (mkAbs (a_now a) (a_main a) (<[i := (fst w, PSend)]> (a_workers a))
              (String.append (a_out a) (phase_output (fst w) r)))
  | PRelaunch => Some (set_worker a i (fst w, PSleeping (a_now a + delay)))
  | _ => None
  end.

Definition astep (a : Abs) (act : Action) : option Abs :=
  match act with
  | ARun O => main_step a
  | ARun (S i) =>
      match a_workers a !! i with
      | Some w => worker_step a i w
      | None => None
      end
  | AComm (S i) O =>
      match a_workers a !! i, a_main a with
      | Some (l, PSend), MSpawning [] =>
          Some (mkAbs (a_now a) (MHold l) (<[i := (l, PDone)]> (a_workers a)) (a_out a))
      | _, _ => None
      end
  | AComm _ _ => None
  | AGetDone (S i) r =>
      match a_workers a !! i with
      | Some (l, PProbing) => Some (set_worker a i (l, PReport r))
      | _ => None
      end
  | AGetDone O _ => None
  | AWake (S i) =>
      match a_workers a !! i with
      | Some (l, PSleeping u) =>
          if u <=? a_now a then Some (set_worker a i (l, PCheck)) else None
      | _ => None
      end
  | AWake O => None
  | ATick d =>
      if 0 <? d then Some (mkAbs (a_now a + d) (a_main a) (a_workers a) (a_out a)) else None
  | AExit => None
  | ADeadlock => None
  end.

(** Every goroutine asleep: main at the receive and every other goroutine
    returned. *)
Definition adead (a : Abs) : bool :=
  match a_main a with
  | MSpawning [] => forallb is_done (a_workers a)
  | _ => false
  end.

(** The links still owed a check: those main has yet to launch or holds,
    and those of the goroutines that have not returned. *)
Definition main_tokens (m : MainPhase) : list string :=
  match m with
  | MStart => ls
  | MSpawning rest => rest
  | MHold l => [l]
  end.

Definition tokens (a : Abs) : list string :=
  main_tokens (a_main a) ++ omap active (a_workers a).

Definition Inv (a : Abs) : Prop := tokens a ≡ₚ ls.

Definition a_start : Abs := mkAbs 0 MStart [] EmptyString.

(** The runtime step from a state of the described shape is the described
    step, or the fatal error of the deadlock detector. *)
Definition refined (a : Abs) (act : Action) : option State :=
  match act with
  | ADeadlock => if adead a then Some (dead_state (conc a)) else None
  | _ => conc <$> astep a act
  end.

End Shapes.

(** ** Observations on goroutines and states *)

(** What one goroutine does when it runs on its own and every request it
    makes ends with [r]; a [range] over a channel is where it waits. *)
Inductive Event : Type :=
| EvMake (c : chan)
| EvGo
| EvSend (c : chan) (v : string)
| EvRange (c : chan)
| EvClose (c : chan)
| EvGet (url : string)
| EvPrint (text : string)
| EvSleep (d : Time.Duration).

Fixpoint trace (r : Http.Result) (p : Proc) : list Event :=
  match p with
  | Return => []
  | Make k => EvMake O :: trace r (k O)
  | Go _ k => EvGo :: trace r k
  | Send c v k => EvSend c v :: trace r k
  | ForRange c _ _ => [EvRange c]
  | Close c k => EvClose c :: trace r k
  | HttpGet url k => EvGet url :: trace r (k r)
  | Println args k => EvPrint (Fmt.Sprintln args) :: trace r k
  | Sleep d k => EvSleep d :: trace r k
  end.

Definition sent (e : Event) : option (chan * string) :=
  match e with
  | EvSend c v => Some (c, v)
  | _ => None
  end.

Definition printed (e : Event) : option string :=
  match e with
  | EvPrint text => Some text
  | _ => None
  end.

(** The two classifications of a probe, read off the branch [checkLink]
    takes. *)
Definition transport_failure (r : Http.Result) : Prop := snd r <> None.

Definition reports_down (link : string) (c : chan) (r : Http.Result) : Prop :=
  report link c r = Println [link; "might be down!"] (Send c link Return).

Definition reports_up (link : string) (c : chan) (r : Http.Result) : Prop :=
  report link c r = Println [link; "is up!"] (Send c link Return).

(** A goroutine has a probe of [l] in flight, or a timer after which its
    first statement is the probe of [l]. *)
Definition probing_for (l : string) (t : Thread) : bool :=
  match t with
  | Probing url _ => bool_decide (url = l)
  | _ => false
  end.

Definition timer_for (l : string) (t : Thread) : bool :=
  match t with
  | Sleeping _ (HttpGet url _) => bool_decide (url = l)
  | _ => false
  end.

Definition pending (l : string) (t : Thread) : bool := probing_for l t || timer_for l t.

Definition count_pending (l : string) (s : State) : nat :=
  length (filter (fun t => pending l t = true) (threads s)).

(** [owes l p]: the code [p] gets or sends [l] before it returns or waits on
    a [range]; the goroutines it launches on the way count too. *)
Fixpoint owes (l : string) (p : Proc) : bool :=
  match p with
  | Return => false
  | Make k => owes l (k O)
  | Go child k => owes l child || owes l k
  | Send _ v _ => bool_decide (v = l)
  | ForRange _ _ _ => false
  | Close _ k => owes l k
  | HttpGet url _ => bool_decide (url = l)
  | Println _ k => owes l k
  | Sleep _ k => owes l k
  end.

Definition in_flight (l : string) (t : Thread) : bool :=
  match t with
  | Running p => owes l p
  | Probing url _ => bool_decide (url = l)
  | Sleeping _ k => owes l k
  end.

Definition count_in_flight (l : string) (s : State) : nat :=
  length (filter (fun t => in_flight l t = true) (threads s)).

(** The two events between which the delay is measured: a check of [l]
    completes when its request returns and, later, when [checkLink] hands
    [l] over and returns; the next check starts with the call of
    [http.Get]. *)
Definition completes (l : string) (s : State) (a : Action) : Prop :=
  (exists i r k, a = AGetDone i r /\ threads s !! i = Some (Probing l k)) \/
  (exists i j c k, a = AComm i j /\ threads s !! i = Some (Running (Send c l k))).

Definition starts_probe (l : string) (s : State) (a : Action) : Prop :=
  exists i k, a = ARun i /\ threads s !! i = Some (Running (HttpGet l k)).

(** Two schedules that differ at most in how the requests end, and two
    states that differ at most in the output and in the line a goroutine is
    about to print. *)
Definition same_choice (a1 a2 : Action) : Prop :=
  match a1, a2 with
  | AGetDone i _, AGetDone j _ => i = j
  | _, _ => a1 = a2
  end.

Definition thread_blind (t1 t2 : Thread) : Prop :=
  t1 = t2 \/
  exists args1 args2 k, t1 = Running (Println args1 k) /\ t2 = Running (Println args2 k).

Definition blind (s1 s2 : State) : Prop :=
  now s1 = now s2 /\ nchan s1 = nchan s2 /\ closed s1 = closed s2 /\
  status s1 = status s2 /\ Forall2 thread_blind (threads s1) (threads s2).

Definition erase_worker (w : string * Phase) : string * Phase :=
  match snd w with
  | PReport _ => (fst w, PReport (None, None))
  | _ => w
  end.

Definition erase (a : Abs) : Abs :=
  mkAbs (a_now a) (a_main a) (map erase_worker (a_workers a)) EmptyString.

(** After a check of [l] completed at time [t]: until [t + delay] no
    goroutine is at or inside the probe of [l], main has no launch of [l]
    left, and a timer for [l] does not fire before [t + delay]. *)
Definition resting_phase (t : Z) (ph : Phase) : Prop :=
  match ph with
  | PCheck | PProbing => False
  | PSleeping u => t + delay <= u
  | _ => True
  end.

Definition main_rests (l : string) (m : MainPhase) : Prop :=
  match m with
  | MStart => False
  | MSpawning rest => l ∉ rest
  | MHold _ => True
  end.

Definition Resting (l : string) (t : Z) (a : Abs) : Prop :=
  t + delay <= a_now a \/
  (t <= a_now a /\ main_rests l (a_main a) /\
   Forall (fun w => fst w = l -> resting_phase t (snd w)) (a_workers a)).

(** ** Further observations: goroutine counts, the output, the timers *)

(** The goroutines that exist: those that have not returned. *)
Definition live_goroutines (s : State) : nat :=
  length (filter (fun t => finished t = false) (threads s)).

(** A goroutine that has printed its line: it is at the send or has
    returned. *)
Definition past_print (t : Thread) : bool :=
  match t with
  | Running (Send _ _ _) => true
  | Running Return => true
  | _ => false
  end.

Definition count_past_print (s : State) : nat :=
  length (filter (fun t => past_print t = true) (threads s)).

(** Every request that ends in the schedule ends with a result in [Q]. *)
Definition result_satisfies (Q : Http.Result -> Prop) (a : Action) : Prop :=
  match a with
  | AGetDone _ r => Q r
  | _ => True
  end.

(** The line [checkLink] prints for a link and the result of its request. *)
Definition report_line (w : string * Http.Result) : string :=
  phase_output (fst w) (snd w).

Fixpoint join_lines (lines : list string) : string :=
  match lines with
  | [] => EmptyString
  | line :: rest => String.append line (join_lines rest)
  end.

Definition has_printed (w : string * Phase) : bool :=
  match snd w with
  | PSend => true
  | PDone => true
  | _ => false
  end.

(** The output so far is the lines of reports on configured links with
    results in [Q], one per goroutine that has printed; the results waiting
    to be reported are in [Q] too. *)
Definition Printed (ls : list string) (Q : Http.Result -> Prop) (a : Abs) : Prop :=
  Forall (fun w => forall r, snd w = PReport r -> Q r) (a_workers a) /\
  exists reports : list (string * Http.Result),
    a_out a = join_lines (map report_line reports) /\
    Forall (fun w => fst w ∈ ls /\ Q (snd w)) reports /\
    length reports = length (filter (fun w => has_printed w = true) (a_workers a)).

(** Every timer was set at a time between the start and now. *)
Definition TimerBound (a : Abs) : Prop :=
  0 <= a_now a /\
  Forall (fun w => forall u, snd w = PSleeping u -> delay <= u <= a_now a + delay)
    (a_workers a).

(** From shape [a] the runtime can get to shape [a'] while [d] nanoseconds
    pass on the clock. *)
Definition leads (ls : list string) (a : Abs) (d : Z) (a' : Abs) : Prop :=
  exists acts, run (conc ls a) acts = Some (conc ls a') /\ a_now a' = a_now a + d.

(** What main launches on its way to the receive. *)
Definition to_launch (ls : list string) (m : MainPhase) : list (string * Phase) :=
  match m with
  | MStart => map (fun l => (l, PCheck)) ls
  | MSpawning rest => map (fun l => (l, PCheck)) rest
  | MHold l => [(l, PRelaunch)]
  end.

(** * Proofs *)

(** The first steps of [main]: the channel is made, the first goroutine is
    launched and issues its request. *)
Example first_steps :
  option_map threads (run (start main) [ARun O; ARun O; ARun 1%nat]) =
  Some [Running (spawn_checks (tail links) O (receive_loop O));
        Probing "http://google.com" (report "http://google.com" O)].
Proof. reflexivity. Qed.

(** ** The runtime steps of [main], read through [conc] *)

Section Refinement.
Variable ls : list string.

Lemma is_closed_conc a c : is_closed (conc ls a) c = false.
Proof. reflexivity. Qed.

Lemma lookup_main a : threads (conc ls a) !! O = Some (main_thread ls (a_main a)).
Proof. reflexivity. Qed.

Lemma lookup_worker a i :
  threads (conc ls a) !! S i = worker_thread O <$> a_workers a !! i.
Proof. simpl. apply list_lookup_fmap. Qed.

Lemma main_not_finished m : finished (main_thread ls m) = false.
Proof. destruct m as [|[|l rest]|l]; reflexivity. Qed.

Lemma main_returned_conc a : main_returned (conc ls a) = false.
Proof. unfold main_returned. rewrite lookup_main. apply main_not_finished. Qed.

Lemma worker_no_recv s w : waits_recv s (worker_thread O w) = None.
Proof. destruct w as [l [| |[resp [e|]]| | | |u]]; reflexivity. Qed.

Lemma workers_no_recv s ws : omap (waits_recv s) (map (worker_thread O) ws) = [].
Proof.
  induction ws as [|w ws IH]; [reflexivity|].
  simpl. rewrite worker_no_recv. exact IH.
Qed.

Lemma workers_asleep a ws :
  forallb (asleep (conc ls a)) (map (worker_thread O) ws)
  && negb (existsb (fun c => bool_decide (c ∈ [O]))
             (omap (waits_send (conc ls a)) (map (worker_thread O) ws)))
  = forallb is_done ws.
Proof.
  induction ws as [|[l ph] ws IH]; [reflexivity|].
  destruct ph as [| |[resp [e|]]| | | |u]; simpl; try exact IH; try reflexivity.
  apply andb_false_r.
Qed.

Lemma deadlocked_conc a : deadlocked (conc ls a) = adead a.
Proof.
  unfold deadlocked, can_comm, adead. rewrite main_returned_conc.
  destruct a as [t m ws out]. destruct m as [|[|l rest]|l]; try reflexivity.
  remember (conc ls (mkAbs t (MSpawning []) ws out)) as s eqn:Hs.
  assert (Hc : forall c, is_closed s c = false) by (subst; reflexivity).
  assert (Hth : threads s = Running (receive_loop O) :: map (worker_thread O) ws)
    by (subst; reflexivity).
  rewrite Hth. unfold asleep at 1. simpl. rewrite Hc. simpl.
  rewrite workers_no_recv. subst s. rewrite andb_true_r.
  exact (workers_asleep (mkAbs t (MSpawning []) ws out) ws).
Qed.

Lemma step_conc_run a i : step (conc ls a) (ARun i) = conc ls <$> astep ls a (ARun i).
Proof.
  unfold step. cbn [status conc live_step]. destruct i as [|i].
  - rewrite lookup_main. destruct a as [t m ws out].
    destruct m as [|[|l rest]|l]; cbn; try reflexivity.
    + unfold add_thread, set_thread, conc; cbn. by rewrite map_app.
    + unfold add_thread, set_thread, conc; cbn. by rewrite map_app.
  - rewrite lookup_worker. cbn [astep].
    destruct (a_workers a !! i) as [[l ph]|] eqn:Hw; [|reflexivity].
    destruct ph as [| |[resp [e|]]| | | |u]; cbn; try reflexivity.
    all: unfold set_thread, conc; cbn; by rewrite list_fmap_insert.
Qed.

Lemma step_conc_comm a i j :
  step (conc ls a) (AComm i j) = conc ls <$> astep ls a (AComm i j).
Proof.
  unfold step. cbn [status conc live_step]. destruct i as [|i].
  - rewrite lookup_main. destruct (a_main a) as [|[|l rest]|l]; reflexivity.
  - rewrite lookup_worker. destruct j as [|j]; cbn [astep].
    + rewrite lookup_main.
      destruct (a_workers a !! i) as [[l ph]|] eqn:Hw; [|reflexivity].
      destruct ph as [| |[resp [e|]]| | | |u]; try reflexivity.
      destruct a as [t m ws out]. cbn [a_main].
      destruct m as [|[|l' rest]|l']; try reflexivity.
      cbn. unfold set_thread, conc; cbn. by rewrite list_fmap_insert.
    + rewrite lookup_worker.
      destruct (a_workers a !! i) as [[l ph]|] eqn:Hw; [|reflexivity].
      destruct ph as [| |[resp [e|]]| | | |u]; try reflexivity.
      destruct (a_workers a !! j) as [[l' ph']|]; [|reflexivity].
      by destruct ph' as [| |[resp [e|]]| | | |u].
Qed.

Lemma step_conc_get a i r :
  step (conc ls a) (AGetDone i r) = conc ls <$> astep ls a (AGetDone i r).
Proof.
  unfold step. cbn [status conc live_step]. destruct i as [|i].
  - rewrite lookup_main. destruct (a_main a) as [|[|l rest]|l]; reflexivity.
  - rewrite lookup_worker. cbn [astep].
    destruct (a_workers a !! i) as [[l ph]|]; [|reflexivity].
    destruct ph as [| |[resp [e|]]| | | |u]; try reflexivity.
    cbn. unfold set_thread, conc; cbn. by rewrite list_fmap_insert.
Qed.

Lemma step_conc_wake a i :
  step (conc ls a) (AWake i) = conc ls <$> astep ls a (AWake i).
Proof.
  unfold step. cbn [status conc live_step]. destruct i as [|i].
  - rewrite lookup_main. destruct (a_main a) as [|[|l rest]|l]; reflexivity.
  - rewrite lookup_worker. cbn [astep].
    destruct (a_workers a !! i) as [[l ph]|]; [|reflexivity].
    destruct ph as [| |[resp [e|]]| | | |u]; try reflexivity.
    cbn. destruct (u <=? a_now a); [|reflexivity].
    cbn. unfold set_thread, conc; cbn. by rewrite list_fmap_insert.
Qed.

Theorem step_conc a act : step (conc ls a) act = refined ls a act.
Proof.
  destruct act as [i|i j|i r|i|d| |].
  - apply step_conc_run.
  - apply step_conc_comm.
  - apply step_conc_get.
  - apply step_conc_wake.
  - unfold step. cbn. by destruct (0 <? d).
  - unfold step. cbn [status conc live_step]. by rewrite main_returned_conc.
  - unfold step. cbn [status conc live_step refined].
    rewrite deadlocked_conc. reflexivity.
Qed.

End Refinement.

(** ** The links owed a check are conserved *)

Lemma omap_active_insert_same (ws : list (string * Phase)) (i : nat) w w' :
  ws !! i = Some w -> active w' = active w ->
  omap active (<[i := w']> ws) = omap active ws.
Proof.
  intros Hi Hw.
  rewrite insert_take_drop by (eapply lookup_lt_Some; exact Hi).
  rewrite <- (take_drop_middle ws i w Hi) at 3.
  rewrite !omap_app. cbn. by rewrite Hw.
Qed.

Lemma omap_active_insert_done (ws : list (string * Phase)) (i : nat) w w' l :
  ws !! i = Some w -> active w = Some l -> active w' = None ->
  omap active ws ≡ₚ l :: omap active (<[i := w']> ws).
Proof.
  intros Hi Hw Hw'.
  rewrite insert_take_drop by (eapply lookup_lt_Some; exact Hi).
  rewrite <- (take_drop_middle ws i w Hi) at 1.
  rewrite !omap_app. cbn. rewrite Hw, Hw'.
  by rewrite Permutation_middle.
Qed.

Section Conservation.
Variable ls : list string.

Lemma Inv_start : Inv ls a_start.
Proof. unfold Inv, tokens. cbn. by rewrite app_nil_r. Qed.

Lemma tokens_step a act a' :
  astep ls a act = Some a' -> tokens ls a' ≡ₚ tokens ls a.
Proof.
  destruct a as [t m ws out]. unfold tokens.
  destruct act as [[|i]|[|i] [|j]|[|i] r|[|i]|d| |]; cbn; try discriminate.
  - destruct m as [|[|l rest]|l]; intros [= <-]; cbn.
    + reflexivity.
    + rewrite omap_app. cbn. rewrite app_assoc. symmetry.
      apply (Permutation_cons_append (rest ++ omap active ws) l).
    + rewrite omap_app. cbn. symmetry. apply Permutation_cons_append.
  - destruct (ws !! i) as [[l ph]|] eqn:Hw; [|discriminate].
    destruct ph; cbn; intros [= <-]; cbn;
      by erewrite omap_active_insert_same by (first [exact Hw | reflexivity]).
  - destruct (ws !! i) as [[l ph]|] eqn:Hw; [|discriminate].
    destruct ph; try discriminate. destruct m as [|[|l' rest]|l']; try discriminate.
    intros [= <-]. cbn.
    by rewrite (omap_active_insert_done ws i (l, PSend) (l, PDone) l Hw eq_refl eq_refl).
  - destruct (ws !! i) as [[l ph]|] eqn:Hw; [|discriminate].
    destruct ph; try discriminate. intros [= <-]. cbn.
    by erewrite omap_active_insert_same by (first [exact Hw | reflexivity]).
  - destruct (ws !! i) as [[l ph]|] eqn:Hw; [|discriminate].
    destruct ph; try discriminate. destruct (_ <=? _); [|discriminate].
    intros [= <-]. cbn.
    by erewrite omap_active_insert_same by (first [exact Hw | reflexivity]).
  - destruct (0 <? d); [|discriminate]. by intros [= <-].
Qed.

Lemma Inv_step a act a' : Inv ls a -> astep ls a act = Some a' -> Inv ls a'.
Proof. unfold Inv. intros HI Hs. by rewrite (tokens_step _ _ _ Hs). Qed.

(** With a link to check, some goroutine is always awake. *)
Lemma adead_tokens a : adead a = true -> tokens ls a = [].
Proof.
  destruct a as [t m ws out]. unfold adead, tokens. cbn.
  destruct m as [|[|l rest]|l]; try discriminate.
  intros Hd. cbn. induction ws as [|[l ph] ws IH]; [reflexivity|].
  cbn in Hd. apply andb_prop in Hd as [H1 H2].
  destruct ph; try discriminate. cbn. by apply IH.
Qed.

Lemma Inv_awake a : ls <> [] -> Inv ls a -> adead a = false.
Proof.
  intros Hne HI. destruct (adead a) eqn:Hd; [|reflexivity].
  apply adead_tokens in Hd. unfold Inv in HI. rewrite Hd in HI.
  apply Permutation_nil_l in HI. congruence.
Qed.

End Conservation.

(** ** Runs of [main] *)

Lemma run_app s acts1 acts2 :
  run s (acts1 ++ acts2) =
  match run s acts1 with
  | Some s' => run s' acts2
  | None => None
  end.
Proof.
  revert s. induction acts1 as [|a acts1 IH]; intros s; cbn; [reflexivity|].
  destruct (step s a); [apply IH | reflexivity].
Qed.

Lemma run_halted s acts s' :
  status s <> Live -> run s acts = Some s' -> acts = [] /\ s' = s.
Proof.
  intros Hst. destruct acts as [|a acts]; cbn.
  - intros [= <-]. done.
  - unfold step. destruct (status s); [congruence|discriminate..].
Qed.

Section Runs.
Variable ls : list string.

Lemma start_conc : start (main_with ls) = conc ls a_start.
Proof. reflexivity. Qed.

(** A property of the shapes kept by every described step holds along
    every run, up to the fatal error that ends a run when every goroutine
    is asleep. *)
Lemma run_conc (P : Abs -> Prop) :
  (forall a act a', P a -> astep ls a act = Some a' -> P a') ->
  forall acts a s, P a -> run (conc ls a) acts = Some s ->
    exists a', P a' /\
      (s = conc ls a' \/ (adead a' = true /\ s = dead_state (conc ls a'))).
Proof.
  intros Hstep acts. induction acts as [|act acts IH]; intros a s HP; cbn [run].
  - intros [= <-]. exists a. auto.
  - rewrite step_conc. unfold refined.
    destruct act; try (destruct (astep ls a _) as [a'|] eqn:Ha; cbn; [|discriminate];
                       apply IH; eapply Hstep; eauto).
    destruct (adead a) eqn:Hd; [|discriminate].
    intros Hr. apply run_halted in Hr as [_ ->]; [|discriminate].
    exists a. auto.
Qed.

Lemma run_conc_awake (P : Abs -> Prop) :
  (forall a act a', P a -> astep ls a act = Some a' -> P a') ->
  (forall a, P a -> adead a = false) ->
  forall acts a s, P a -> run (conc ls a) acts = Some s ->
    exists a', P a' /\ s = conc ls a'.
Proof.
  intros Hstep Hawake acts a s HP Hr.
  destruct (run_conc P Hstep acts a s HP Hr) as (a' & HP' & [->|[Hd _]]); [eauto|].
  rewrite (Hawake a' HP') in Hd. discriminate.
Qed.

(** Every state [main] reaches has the described shape and owes each link
    exactly as configured. *)
Lemma reach_shape acts s :
  ls <> [] -> run (start (main_with ls)) acts = Some s ->
  exists a, Inv ls a /\ s = conc ls a.
Proof.
  intros Hne. rewrite start_conc.
  apply (run_conc_awake (Inv ls)).
  - intros a act a'. apply Inv_step.
  - intros a. by apply Inv_awake.
  - apply Inv_start.
Qed.

End Runs.

(** ** Reading a state of the described shape *)

Lemma conc_thread_inv ls a i t :
  threads (conc ls a) !! i = Some t ->
  (i = O /\ t = main_thread ls (a_main a)) \/
  (exists j w, i = S j /\ a_workers a !! j = Some w /\ t = worker_thread O w).
Proof.
  destruct i as [|j].
  - rewrite lookup_main. intros [= <-]. by left.
  - rewrite lookup_worker. destruct (a_workers a !! j) as [w|] eqn:Hw; [|discriminate].
    intros [= <-]. right. eauto.
Qed.

Lemma active_in_links ls a (j : nat) w l :
  Inv ls a -> a_workers a !! j = Some w -> active w = Some l -> l ∈ ls.
Proof.
  intros HI Hw Hact. unfold Inv in HI. rewrite <- HI. unfold tokens.
  apply elem_of_app. right. apply list_elem_of_omap.
  exists w. split; [|exact Hact]. eapply list_elem_of_lookup_2. exact Hw.
Qed.

Lemma count_newlines_app s1 s2 :
  Fmt.count_newlines (String.append s1 s2) =
  (Fmt.count_newlines s1 + Fmt.count_newlines s2)%nat.
Proof.
  induction s1 as [|a s1 IH]; simpl; [reflexivity|].
  rewrite IH. destruct (Ascii.eqb a _); lia.
Qed.

Lemma spawn_all ls t rest ws out :
  run (conc ls (mkAbs t (MSpawning rest) ws out)) (repeat (ARun O) (length rest)) =
  Some (conc ls (mkAbs t (MSpawning []) (ws ++ map (fun l => (l, PCheck)) rest) out)).
Proof.
  revert ws. induction rest as [|l rest IH]; intros ws; cbn [length repeat run map].
  - by rewrite app_nil_r.
  - rewrite step_conc. cbn. rewrite IH. by rewrite <- app_assoc.
Qed.

(** ** The Coordinator's steps, the classification and the output *)

(** C1.  The Coordinator's algorithm.  At startup [main] makes the channel
    and, in as many steps of its own as there are links, launches one
    [checkLink] goroutine per link, in order, each on that channel and none
    behind a delay; it is then at the receive.  At the receive it cannot
    move until a goroutine hands a link over; the hand-off followed by
    main's next statement leaves main at the receive again and adds one
    goroutine, which sleeps for [delay] and then runs [checkLink] on the
    received link and the same channel. *)
Theorem coordinator_algorithm :
  (forall ls,
     run (start (main_with ls)) (repeat (ARun O) (S (length ls))) =
     Some (mkState 0
             (Running (receive_loop O) :: map (fun l => Running (checkLink l O)) ls)
             1 [] EmptyString Live)) /\
  (forall s i c v k,
     status s = Live ->
     threads s !! O = Some (Running (receive_loop c)) ->
     threads s !! i = Some (Running (Send c v k)) ->
     is_closed s c = false ->
     step s (ARun O) = None /\
     run s [AComm i O; ARun O] =
     Some (add_thread (set_thread s i (Running k))
             (Running (Sleep delay (checkLink v c))))).
Proof.
  split.
  - intros ls. cbn [repeat run]. rewrite start_conc, step_conc. cbn.
    change (mkState 0 (Running (spawn_checks ls O (receive_loop O)) :: []) 1 [] EmptyString Live)
      with (conc ls (mkAbs 0 (MSpawning ls) [] EmptyString)).
    rewrite spawn_all. unfold conc. cbn. do 2 f_equal.
    rewrite map_map. reflexivity.
  - intros s i c v k Hst H0 Hi Hc. split.
    + unfold step. rewrite Hst. cbn. rewrite H0. cbn. by rewrite Hc.
    + assert (Hne : i <> O) by (intros ->; rewrite H0 in Hi; discriminate).
      cbn [run]. unfold step at 1. rewrite Hst. cbn [live_step]. rewrite Hi, H0.
      unfold receive_loop at 1.
      rewrite bool_decide_eq_true_2 by reflexivity. rewrite Hc. cbn [andb negb].
      unfold step, set_thread. cbn [status]. rewrite Hst. cbn [live_step threads].
      rewrite list_lookup_insert_eq
        by (rewrite length_insert; eapply lookup_lt_Some; exact H0).
      cbn. unfold add_thread, set_thread. cbn. rewrite list_insert_insert_eq.
      rewrite (list_insert_id (<[i:=Running k]> (threads s)) O (Running (receive_loop c))).
      * reflexivity.
      * rewrite list_lookup_insert_ne by done. exact H0.
Qed.

Lemma coordinator_algorithm_witness :
  exists s,
    run (start main)
      (repeat (ARun O) 6 ++ [ARun 1%nat; AGetDone 1%nat (Http.completed 200); ARun 1%nat])
    = Some s /\
    step s (ARun O) = None /\
    run s [AComm 1%nat O; ARun O] =
    Some (add_thread (set_thread s 1%nat (Running Return))
            (Running (Sleep delay (checkLink "http://google.com" O)))).
Proof.
  eexists. split; [vm_compute; reflexivity|].
  apply (proj2 coordinator_algorithm _ 1%nat O "http://google.com" Return); reflexivity.
Defined.

(** C3.  Classification.  [checkLink] takes the "might be down!" branch
    exactly when [http.Get] returned an error, and the "is up!" branch
    otherwise; a completed request is reported up whatever its status code,
    404 and 500 included. *)
Theorem checkLink_classification (link : string) (c : chan) (r : Http.Result) :
  (reports_down link c r <-> transport_failure r) /\
  (reports_up link c r <-> ~ transport_failure r) /\
  (forall status, reports_up link c (Http.completed status)) /\
  reports_up link c (Http.completed 404) /\
  reports_up link c (Http.completed 500).
Proof.
  unfold reports_down, reports_up, transport_failure, report.
  split; [|split; [|repeat split]].
  - destruct r as [resp [e|]]; cbn; split; intros H; congruence.
  - destruct r as [resp [e|]]; cbn; split; intros H; try congruence.
    exfalso. apply H. congruence.
Qed.

(** C8.  One line per check.  However the request ends, a goroutine running
    [checkLink link c] prints once: the link, a space, ["is up!"] or
    ["might be down!"], and the end of the line.  The runtime appends exactly
    that text to the standard output when the goroutine prints, and for a
    link without a line break it is one line. *)
Theorem check_prints_one_line (link : string) (c : chan) (r : Http.Result) :
  let text := String.append
                (String.append link (match snd r with
                                     | Some _ => " might be down!"
                                     | None => " is up!"
                                     end)) Fmt.newline in
  omap printed (trace r (checkLink link c)) = [text] /\
  (forall s i, status s = Live -> threads s !! i = Some (Running (report link c r)) ->
     exists s', step s (ARun i) = Some s' /\
       stdout s' = String.append (stdout s) text /\
       threads s' !! i = Some (Running (Send c link Return))) /\
  (Fmt.count_newlines link = O -> Fmt.count_newlines text = 1%nat).
Proof.
  cbn zeta. split; [|split].
  - unfold checkLink, report. cbn [trace]. destruct r as [resp [e|]]; reflexivity.
  - intros s i Hst Hi. unfold step. rewrite Hst. cbn [live_step]. rewrite Hi.
    unfold report. destruct r as [resp [e|]]; cbn.
    all: eexists; split; [reflexivity|]; cbn; split; [reflexivity|].
    all: apply list_lookup_insert_eq; eapply lookup_lt_Some; exact Hi.
  - intros Hl. rewrite !count_newlines_app, Hl.
    destruct (snd r); reflexivity.
Qed.

Lemma check_prints_one_line_witness :
  exists s,
    run (start main) [ARun O; ARun O; ARun 1%nat; AGetDone 1%nat (Http.failed "no such host")]
    = Some s /\
    exists s', step s (ARun 1%nat) = Some s' /\
      stdout s' = String.append "http://google.com might be down!" Fmt.newline /\
      Fmt.count_newlines
        (String.append "http://google.com might be down!" Fmt.newline) = 1%nat.
Proof.
  eexists. split; [vm_compute; reflexivity|].
  destruct (check_prints_one_line "http://google.com" O (Http.failed "no such host"))
    as (_ & Hstep & Hline).
  match goal with
  | |- exists s', step ?s _ = _ /\ _ =>
      destruct (Hstep s 1%nat eq_refl eq_refl) as (s' & Hs' & Hout & _)
  end.
  exists s'. split; [exact Hs'|]. split; [exact Hout|].
  exact (Hline eq_refl).
Defined.

(** ** Counting the goroutines that work on a link *)

Lemma filter_eq_absent (l : string) (xs : list string) :
  l ∉ xs -> filter (fun x => x = l) xs = [].
Proof.
  induction xs as [|x xs IH]; [reflexivity|].
  intros Hnot. apply not_elem_of_cons in Hnot as [Hne Hnot].
  rewrite filter_cons_False by congruence. by apply IH.
Qed.

Lemma count_once (l : string) (xs : list string) :
  NoDup xs -> l ∈ xs -> length (filter (fun x => x = l) xs) = 1%nat.
Proof.
  induction 1 as [|x xs Hx Hnd IH]; intros Hin.
  - by apply elem_of_nil in Hin.
  - destruct (decide (x = l)) as [->|Hne].
    + rewrite filter_cons_True by reflexivity.
      by rewrite filter_eq_absent.
    + rewrite filter_cons_False by exact Hne.
      apply IH. apply elem_of_cons in Hin as [->|Hin]; [done|exact Hin].
Qed.

Lemma count_member (l : string) (xs : list string) :
  NoDup xs ->
  length (filter (fun x => x = l) xs) = if bool_decide (l ∈ xs) then 1%nat else O.
Proof.
  intros Hnd. destruct (decide (l ∈ xs)) as [Hin|Hnot].
  - rewrite bool_decide_eq_true_2 by exact Hin. by apply count_once.
  - rewrite bool_decide_eq_false_2 by exact Hnot. by rewrite filter_eq_absent.
Qed.

Lemma owes_spawn_checks l rest c :
  owes l (spawn_checks rest c (receive_loop c)) = bool_decide (l ∈ rest).
Proof.
  induction rest as [|x rest IH]; [reflexivity|].
  cbn [spawn_checks owes checkLink]. rewrite IH.
  destruct (decide (x = l)) as [->|Hne].
  - rewrite (bool_decide_eq_true_2 (l = l)) by reflexivity.
    rewrite (bool_decide_eq_true_2 (l ∈ l :: rest)) by apply list_elem_of_here.
    reflexivity.
  - rewrite (bool_decide_eq_false_2 (x = l)) by exact Hne. cbn.
    apply bool_decide_ext. rewrite elem_of_cons.
    split; [by right | intros [Heq|Hin]; [congruence | exact Hin]].
Qed.

Lemma in_flight_main ls l m :
  in_flight l (main_thread ls m) = bool_decide (l ∈ main_tokens ls m).
Proof.
  destruct m as [|rest|l']; cbn [main_thread main_tokens in_flight].
  - cbn [main_with owes]. apply owes_spawn_checks.
  - apply owes_spawn_checks.
  - cbn. rewrite orb_false_r. apply bool_decide_ext.
    rewrite list_elem_of_singleton. naive_solver.
Qed.

Lemma in_flight_worker l w :
  in_flight l (worker_thread O w) = bool_decide (active w = Some l).
Proof.
  destruct w as [x ph]. unfold active.
  destruct ph as [| |[resp [e|]]| | | |u]; cbn; try reflexivity.
  all: apply bool_decide_ext; naive_solver.
Qed.

Lemma count_workers l ws :
  length (filter (fun t => in_flight l t = true) (map (worker_thread O) ws)) =
  length (filter (fun x => x = l) (omap active ws)).
Proof.
  induction ws as [|w ws IH]; [reflexivity|].
  cbn [map].
  change (omap active (w :: ws)) with (match active w with
                                        | Some y => y :: omap active ws
                                        | None => omap active ws
                                        end).
  destruct (active w) as [x|] eqn:Hact.
  - destruct (decide (x = l)) as [->|Hne].
    + rewrite filter_cons_True
        by (rewrite in_flight_worker; apply bool_decide_eq_true_2; exact Hact).
      rewrite (filter_cons_True (fun x => x = l)) by reflexivity.
      cbn [length]. by rewrite IH.
    + rewrite filter_cons_False
        by (rewrite in_flight_worker, bool_decide_eq_false_2; congruence).
      rewrite (filter_cons_False (fun x => x = l)) by exact Hne.
      exact IH.
  - rewrite filter_cons_False
      by (rewrite in_flight_worker, bool_decide_eq_false_2; congruence).
    exact IH.
Qed.

Lemma count_in_flight_conc ls a l :
  NoDup ls -> Inv ls a ->
  count_in_flight l (conc ls a) = if bool_decide (l ∈ ls) then 1%nat else O.
Proof.
  intros Hnd HI. unfold Inv in HI.
  assert (Hnt : NoDup (tokens ls a)) by (by rewrite HI).
  assert (Hlen : length (filter (fun x => x = l) (tokens ls a)) =
                 length (filter (fun x => x = l) ls)) by (by rewrite HI).
  rewrite <- (count_member l ls Hnd), <- Hlen. clear Hlen HI.
  unfold tokens in *. apply NoDup_app in Hnt as (Hm & _ & _).
  unfold count_in_flight. cbn [threads conc].
  rewrite filter_cons, in_flight_main, filter_app, length_app.
  rewrite (count_member l _ Hm), <- count_workers.
  destruct (bool_decide (l ∈ main_tokens ls (a_main a))) eqn:Hb.
  - rewrite decide_True by reflexivity. reflexivity.
  - rewrite decide_False by discriminate. reflexivity.
Qed.

Lemma links_NoDup : NoDup links.
Proof. apply (bool_decide_unpack _). vm_compute. exact I. Qed.

Lemma links_nonempty : links <> [].
Proof. discriminate. Qed.

Lemma in_flight_in_links ls a i t l :
  Inv ls a -> threads (conc ls a) !! i = Some t -> in_flight l t = true -> l ∈ ls.
Proof.
  intros HI Ht Hfl. unfold Inv in HI. rewrite <- HI. unfold tokens.
  apply elem_of_app.
  apply conc_thread_inv in Ht as [[-> ->]|(j & w & -> & Hw & ->)].
  - left. rewrite in_flight_main in Hfl. by apply bool_decide_eq_true_1 in Hfl.
  - right. rewrite in_flight_worker in Hfl. apply bool_decide_eq_true_1 in Hfl.
    apply list_elem_of_omap. exists w. split; [|exact Hfl].
    eapply list_elem_of_lookup_2. exact Hw.
Qed.

Lemma run_snoc s acts a s' s'' :
  run s acts = Some s' -> step s' a = Some s'' -> run s (acts ++ [a]) = Some s''.
Proof. intros Hr Hs. rewrite run_app, Hr. cbn. by rewrite Hs. Qed.

(** C9.  The fixed delay is five seconds.  [delay] is 5 000 000 000
    nanoseconds, which an int64 holds; in every state [main] reaches, a
    goroutine about to sleep asks for exactly that long and has [checkLink]
    of a configured link on the channel as the rest of its code; the runtime
    sets its timer to the current time plus that duration, and the timer
    fires no earlier. *)
Theorem delay_is_five_seconds :
  delay = 5000000000 /\
  Time.fits_int64 delay = true /\
  (forall l c, relaunch l c = Sleep 5000000000 (checkLink l c)) /\
  (forall acts s i d k,
     run (start main) acts = Some s ->
     threads s !! i = Some (Running (Sleep d k)) ->
     d = 5000000000 /\ (exists l, l ∈ links /\ k = checkLink l O) /\
     step s (ARun i) = Some (set_thread s i (Sleeping (now s + 5000000000) k))) /\
  (forall s i u k,
     status s = Live ->
     threads s !! i = Some (Sleeping u k) ->
     step s (AWake i) = if u <=? now s then Some (set_thread s i (Running k)) else None).
Proof.
  split; [reflexivity|]. split; [reflexivity|]. split; [reflexivity|]. split.
  - intros acts s i d k Hr Hi.
    destruct (reach_shape links acts s links_nonempty Hr) as (a & HI & ->).
    assert (Hd : d = 5000000000 /\ exists l, l ∈ links /\ k = checkLink l O).
    { apply conc_thread_inv in Hi as [[-> Hm]|(j & [l ph] & -> & Hw & Ht)].
      - destruct (a_main a) as [|[|x rest]|x]; discriminate.
      - destruct ph as [| |[resp [e|]]| | | |u]; try discriminate.
        cbn in Ht. injection Ht as -> ->. split; [reflexivity|].
        exists l. split; [|reflexivity].
        eapply active_in_links; [exact HI | exact Hw | reflexivity]. }
    destruct Hd as [-> Hk]. split; [reflexivity|]. split; [exact Hk|].
    unfold step. cbn [status conc live_step]. rewrite Hi. reflexivity.
  - intros s i u k Hst Hi. unfold step. rewrite Hst. cbn [live_step]. by rewrite Hi.
Qed.

Lemma delay_is_five_seconds_witness :
  exists s,
    run (start main)
      (repeat (ARun O) 6 ++
       [ARun 1%nat; AGetDone 1%nat (Http.completed 200); ARun 1%nat; AComm 1%nat O; ARun O;
        ATick 7])
    = Some s /\
    step s (ARun 6%nat) =
    Some (set_thread s 6%nat (Sleeping 5000000007 (checkLink "http://google.com" O))).
Proof.
  eexists. split; [vm_compute; reflexivity|].
  match goal with
  | |- step ?s _ = _ =>
      exact (proj2 (proj2
               (proj1 (proj2 (proj2 (proj2 delay_is_five_seconds)))
                  (repeat (ARun O) 6 ++
                   [ARun 1%nat; AGetDone 1%nat (Http.completed 200); ARun 1%nat;
                    AComm 1%nat O; ARun O; ATick 7])
                  s 6%nat delay (checkLink "http://google.com" O) eq_refl eq_refl)))
  end.
Defined.

(** C10.  The configured links are the five of the source, in its order.
    In every state [main] reaches, each of them is the work of exactly one
    goroutine, no goroutine works on any other string, and so every request
    in flight is for one of the five. *)
Theorem targets_are_fixed :
  links = ["http://google.com"; "http://facebook.com"; "http://stackoverflow.com";
           "http://golang.org"; "http://amazon.com"] /\
  forall acts s,
    run (start main) acts = Some s ->
    (forall l, l ∈ links -> count_in_flight l s = 1%nat) /\
    (forall i t l, threads s !! i = Some t -> in_flight l t = true -> l ∈ links) /\
    (forall i url k, threads s !! i = Some (Probing url k) -> url ∈ links).
Proof.
  split; [reflexivity|]. intros acts s Hr.
  destruct (reach_shape links acts s links_nonempty Hr) as (a & HI & ->).
  split; [|split].
  - intros l Hl. rewrite (count_in_flight_conc links a l links_NoDup HI).
    by rewrite bool_decide_eq_true_2.
  - intros i t l. by apply in_flight_in_links.
  - intros i url k Hi. eapply in_flight_in_links; [exact HI | exact Hi |].
    cbn. by apply bool_decide_eq_true_2.
Qed.

Lemma targets_are_fixed_witness :
  exists s,
    run (start main)
      (repeat (ARun O) 6 ++
       [ARun 3%nat; AGetDone 3%nat (Http.failed "timeout"); ARun 3%nat; AComm 3%nat O; ARun O;
        ARun 6%nat; ATick 5000000000; AWake 6%nat; ARun 6%nat])
    = Some s /\
    count_in_flight "http://stackoverflow.com" s = 1%nat /\
    threads s !! 6%nat =
      Some (Probing "http://stackoverflow.com" (report "http://stackoverflow.com" O)) /\
    "http://stackoverflow.com" ∈ links.
Proof.
  eexists. split; [vm_compute; reflexivity|].
  match goal with
  | |- count_in_flight _ ?s = _ /\ _ =>
      destruct (proj2 targets_are_fixed
                  (repeat (ARun O) 6 ++
                   [ARun 3%nat; AGetDone 3%nat (Http.failed "timeout"); ARun 3%nat;
                    AComm 3%nat O; ARun O; ARun 6%nat; ATick 5000000000; AWake 6%nat;
                    ARun 6%nat])
                  s eq_refl) as (Hcount & _ & Hprobe)
  end.
  split; [apply Hcount; apply (bool_decide_unpack _); vm_compute; exact I|].
  split; [reflexivity|].
  eapply (Hprobe 6%nat). reflexivity.
Defined.

(** C5.  No close, no exit.  In every state [main] reaches the process is
    live, no channel is closed, main has not returned and is not past its
    receive loop, some goroutine can still move or is waiting on the network
    or a timer, and no goroutine is at a [close]; so neither the exit of the
    process nor the runtime's deadlock error is a possible step, and every
    possible step leads to a state of which all this holds again. *)
Theorem no_internal_exit (acts : list Action) (s : State) :
  run (start main) acts = Some s ->
  status s = Live /\ closed s = [] /\
  main_returned s = false /\ deadlocked s = false /\
  (forall i c k, threads s !! i <> Some (Running (Close c k))) /\
  step s AExit = None /\ step s ADeadlock = None /\
  (forall a s', step s a = Some s' ->
     status s' = Live /\ closed s' = [] /\ main_returned s' = false).
Proof.
  intros Hr.
  assert (Hshape : forall acts s, run (start main) acts = Some s ->
            status s = Live /\ closed s = [] /\ main_returned s = false /\
            deadlocked s = false /\
            (forall i c k, threads s !! i <> Some (Running (Close c k)))).
  { clear acts s Hr. intros acts s Hr.
    destruct (reach_shape links acts s links_nonempty Hr) as (a & HI & ->).
    split; [reflexivity|]. split; [reflexivity|].
    split; [apply main_returned_conc|].
    split; [rewrite deadlocked_conc; by apply (Inv_awake links), HI; apply links_nonempty|].
    intros i c k Hi.
    apply conc_thread_inv in Hi as [[-> Hm]|(j & [l ph] & -> & Hw & Ht)].
    - destruct (a_main a) as [|[|x rest]|x]; discriminate.
    - destruct ph as [| |[resp [e|]]| | | |u]; discriminate. }
  destruct (Hshape acts s Hr) as (Hst & Hcl & Hmain & Hdead & Hclose).
  repeat split; try assumption.
  - unfold step. rewrite Hst. cbn. by rewrite Hmain.
  - unfold step. rewrite Hst. cbn. by rewrite Hdead.
  - eapply Hshape, run_snoc; eauto.
  - eapply Hshape, run_snoc; eauto.
  - eapply Hshape, run_snoc; eauto.
Qed.

Lemma no_internal_exit_witness :
  exists s,
    run (start main)
      (repeat (ARun O) 6 ++
       [ARun 1%nat; ARun 2%nat; AGetDone 2%nat (Http.failed "connection refused");
        ARun 2%nat; AComm 2%nat O])
    = Some s /\
    status s = Live /\ closed s = [] /\ step s AExit = None /\ step s ADeadlock = None.
Proof.
  eexists. split; [vm_compute; reflexivity|].
  match goal with
  | |- status ?s = _ /\ _ =>
      destruct (no_internal_exit
                  (repeat (ARun O) 6 ++
                   [ARun 1%nat; ARun 2%nat; AGetDone 2%nat (Http.failed "connection refused");
                    ARun 2%nat; AComm 2%nat O])
                  s eq_refl) as (Hst & Hcl & _ & _ & _ & Hexit & Hdead & _)
  end.
  auto.
Defined.

(** ** No configured link *)





(** ** The rest between two checks of a link *)

Lemma active_unique (ws : list (string * Phase)) (i j : nat) w w' l :
  NoDup (omap active ws) ->
  ws !! i = Some w -> ws !! j = Some w' ->
  active w = Some l -> active w' = Some l -> i = j.
Proof.
  revert i j. induction ws as [|w0 ws IH]; intros i j Hnd Hi Hj Hw Hw'.
  - discriminate.
  - change (omap active (w0 :: ws)) with (match active w0 with
                                           | Some y => y :: omap active ws
                                           | None => omap active ws
                                           end) in Hnd.
    assert (Hin : forall (n : nat) x, ws !! n = Some x -> active x = Some l ->
                                      l ∈ omap active ws).
    { intros n x Hn Hx. apply list_elem_of_omap. exists x. split; [|exact Hx].
      eapply list_elem_of_lookup_2. exact Hn. }
    destruct i as [|i], j as [|j]; cbn in Hi, Hj.
    + reflexivity.
    + injection Hi as ->. rewrite Hw in Hnd. apply NoDup_cons in Hnd as [Hnot _].
      exfalso. apply Hnot. eapply Hin; eauto.
    + injection Hj as ->. rewrite Hw' in Hnd. apply NoDup_cons in Hnd as [Hnot _].
      exfalso. apply Hnot. eapply Hin; eauto.
    + f_equal. apply IH; try assumption.
      destruct (active w0); [by apply NoDup_cons in Hnd as [_ Hnd]|exact Hnd].
Qed.

(** While a goroutine works on [l], main has no launch of [l] left and every
    other goroutine that worked on [l] has returned. *)
Lemma others_done ls a (j : nat) l ph :
  NoDup ls -> Inv ls a ->
  a_workers a !! j = Some (l, ph) -> ph <> PDone ->
  main_rests l (a_main a) /\
  forall (j' : nat) w', j' <> j -> a_workers a !! j' = Some w' -> fst w' = l ->
                        snd w' = PDone.
Proof.
  intros Hnd HI Hj Hph. unfold Inv in HI.
  assert (Hnt : NoDup (tokens ls a)) by (by rewrite HI).
  unfold tokens in Hnt. apply NoDup_app in Hnt as (Hm & Hdisj & Hws).
  assert (Hact : active (l, ph) = Some l) by (by destruct ph).
  assert (Hin : l ∈ omap active (a_workers a)).
  { apply list_elem_of_omap. exists (l, ph). split; [|exact Hact].
    eapply list_elem_of_lookup_2. exact Hj. }
  split.
  - destruct (a_main a) as [|rest|x] eqn:Hmain; cbn in *.
    + assert (Hl : l ∈ ls) by (rewrite <- HI; unfold tokens; rewrite Hmain;
                                apply elem_of_app; by right).
      exact (Hdisj l Hl Hin).
    + intros Hl. exact (Hdisj l Hl Hin).
    + exact I.
  - intros j' [x ph'] Hne Hj' Hx. cbn in Hx. subst x. cbn.
    assert (Hcase : ph' = PDone \/ active (l, ph') = Some l)
      by (destruct ph'; auto).
    destruct Hcase as [->|Hact']; [reflexivity|].
    exfalso. apply Hne.
    exact (active_unique (a_workers a) j' j (l, ph') (l, ph) l Hws Hj' Hj Hact' Hact).
Qed.

Lemma Resting_step ls l t a act a' :
  Resting l t a -> astep ls a act = Some a' -> Resting l t a'.
Proof.
  intros [Hlate|(Ht & Hmain & Hws)] Hs.
  - (* the delay is over: the clock does not go back *)
    left. destruct a as [now0 m ws out]. cbn in Hlate.
    destruct act as [[|i]|[|i] [|j]|[|i] r|[|i]|d| |]; cbn in Hs; try discriminate.
    + destruct m as [|[|x rest]|x]; try discriminate; by injection Hs as <-.
    + destruct (ws !! i) as [[x ph]|]; [|discriminate].
      destruct ph; try discriminate; by injection Hs as <-.
    + destruct (ws !! i) as [[x ph]|]; [|discriminate].
      destruct ph; try discriminate. destruct m as [|[|y rest]|y]; try discriminate.
      by injection Hs as <-.
    + destruct (ws !! i) as [[x ph]|]; [|discriminate].
      destruct ph; try discriminate; by injection Hs as <-.
    + destruct (ws !! i) as [[x ph]|]; [|discriminate].
      destruct ph; try discriminate. destruct (_ <=? _); [|discriminate].
      by injection Hs as <-.
    + destruct (0 <? d) eqn:Hd; [|discriminate]. injection Hs as <-. cbn.
      apply Z.ltb_lt in Hd. lia.
  - destruct a as [now0 m ws out]. cbn in Ht, Hmain, Hws.
    destruct act as [[|i]|[|i] [|j]|[|i] r|[|i]|d| |]; cbn in Hs; try discriminate.
    + (* main *)
      destruct m as [|[|x rest]|x]; try discriminate; injection Hs as <-.
      * destruct Hmain.
      * right. cbn in *. split; [exact Ht|]. apply not_elem_of_cons in Hmain as [Hne Hrest].
        split; [exact Hrest|]. apply Forall_app. split; [exact Hws|].
        apply Forall_singleton. cbn. congruence.
      * right. cbn. split; [exact Ht|]. split; [apply not_elem_of_nil|].
        apply Forall_app. split; [exact Hws|]. by apply Forall_singleton.
    + (* a goroutine's own statement *)
      destruct (ws !! i) as [[x ph]|] eqn:Hi; [|discriminate].
      pose proof (Forall_lookup_1 _ _ _ _ Hws Hi) as Hold. cbn in Hold.
      destruct ph; try discriminate; injection Hs as <-; right; cbn;
        (split; [exact Ht|]); (split; [exact Hmain|]);
        apply Forall_insert; try exact Hws; cbn; intros Hx.
      * exact (Hold Hx).
      * exact I.
      * lia.
    + (* hand-off *)
      destruct (ws !! i) as [[x ph]|] eqn:Hi; [|discriminate].
      destruct ph; try discriminate. destruct m as [|[|y rest]|y]; try discriminate.
      injection Hs as <-. right. cbn. split; [exact Ht|]. split; [exact I|].
      by apply Forall_insert.
    + (* a request returns *)
      destruct (ws !! i) as [[x ph]|] eqn:Hi; [|discriminate].
      destruct ph; try discriminate. injection Hs as <-. right. cbn.
      split; [exact Ht|]. split; [exact Hmain|]. by apply Forall_insert.
    + (* a timer fires *)
      destruct (ws !! i) as [[x ph]|] eqn:Hi; [|discriminate].
      pose proof (Forall_lookup_1 _ _ _ _ Hws Hi) as Hold. cbn in Hold.
      destruct ph as [| | | | | |u]; try discriminate.
      destruct (u <=? now0) eqn:Hu; [|discriminate]. injection Hs as <-.
      apply Z.leb_le in Hu. destruct (decide (x = l)) as [Hx|Hx].
      * left. specialize (Hold Hx). exact (Z.le_trans _ _ _ Hold Hu).
      * right. cbn. split; [exact Ht|]. split; [exact Hmain|].
        apply Forall_insert; [exact Hws|]. cbn. congruence.
    + (* time passes *)
      destruct (0 <? d) eqn:Hd; [|discriminate]. injection Hs as <-.
      apply Z.ltb_lt in Hd. right. cbn. split; [lia|]. split; [exact Hmain|exact Hws].
Qed.

(** The step that completes a check of [l] starts the rest of [l]. *)
Lemma Resting_begins ls a act s1 l :
  NoDup ls -> Inv ls a ->
  completes l (conc ls a) act -> step (conc ls a) act = Some s1 ->
  exists a1, s1 = conc ls a1 /\ Inv ls a1 /\ Resting l (a_now a) a1.
Proof.
  intros Hnd HI Hc Hs. rewrite step_conc in Hs.
  destruct Hc as [(i & r & k & -> & Hi)|(i & j0 & c & k & -> & Hi)].
  - apply conc_thread_inv in Hi as [[-> Hm]|(j & [x ph] & -> & Hw & Ht)].
    { destruct (a_main a) as [|[|y rest]|y]; discriminate. }
    destruct ph as [| |[resp [e|]]| | | |u]; try discriminate.
    cbn in Ht. injection Ht as Hx _. subst x.
    destruct (others_done ls a j l PProbing Hnd HI Hw) as [Hmain Hothers]; [discriminate|].
    cbn in Hs. rewrite Hw in Hs. cbn in Hs. injection Hs as <-.
    eexists. split; [reflexivity|]. split.
    + eapply Inv_step; [exact HI|]. instantiate (1 := AGetDone (S j) r). cbn. by rewrite Hw.
    + right. cbn. split; [lia|]. split; [exact Hmain|].
      apply Forall_lookup. intros j' w' Hj' Hx.
      destruct (decide (j' = j)) as [->|Hne].
      * rewrite list_lookup_insert_eq in Hj' by (eapply lookup_lt_Some; exact Hw).
        injection Hj' as <-. exact I.
      * rewrite list_lookup_insert_ne in Hj' by congruence.
        by rewrite (Hothers j' w' Hne Hj' Hx).
  - apply conc_thread_inv in Hi as [[-> Hm]|(j & [x ph] & -> & Hw & Ht)].
    { destruct (a_main a) as [|[|y rest]|y]; discriminate. }
    destruct ph as [| |[resp [e|]]| | | |u]; try discriminate.
    cbn in Ht. injection Ht as _ Hx _. subst x.
    destruct (others_done ls a j l PSend Hnd HI Hw) as [Hmain Hothers]; [discriminate|].
    destruct j0 as [|j0]; [|discriminate]. cbn in Hs. rewrite Hw in Hs.
    destruct (a_main a) as [|[|y rest]|y] eqn:Hmn; try discriminate.
    cbn in Hs. injection Hs as <-.
    eexists. split; [reflexivity|]. split.
    + eapply Inv_step; [exact HI|]. instantiate (1 := AComm (S j) O). cbn.
      by rewrite Hw, Hmn.
    + right. cbn. split; [lia|]. split; [exact I|].
      apply Forall_lookup. intros j' w' Hj' Hx.
      destruct (decide (j' = j)) as [->|Hne].
      * rewrite list_lookup_insert_eq in Hj' by (eapply lookup_lt_Some; exact Hw).
        injection Hj' as <-. exact I.
      * rewrite list_lookup_insert_ne in Hj' by congruence.
        by rewrite (Hothers j' w' Hne Hj' Hx).
Qed.

(** A probe of [l] cannot start while [l] rests. *)
Lemma Resting_ends ls a a' l t :
  Resting l t a -> starts_probe l (conc ls a) a' -> t + delay <= a_now a.
Proof.
  intros [Hlate|(_ & _ & Hws)] (i & k & -> & Hi); [exact Hlate|].
  exfalso.
  apply conc_thread_inv in Hi as [[-> Hm]|(j & [x ph] & -> & Hw & Ht)].
  - destruct (a_main a) as [|[|y rest]|y]; discriminate.
  - destruct ph as [| |[resp [e|]]| | | |u]; try discriminate.
    cbn in Ht. injection Ht as Hx _. subst x.
    exact (Forall_lookup_1 _ _ _ _ Hws Hw eq_refl).
Qed.

Lemma pending_in_flight l t : pending l t = true -> in_flight l t = true.
Proof.
  unfold pending. destruct t as [p|url k|u [| | | | | |url k| |]]; cbn; try discriminate.
  all: by rewrite ?orb_false_r.
Qed.

Lemma filter_length_le {A} (P Q : A -> Prop) `{!forall x, Decision (P x)}
    `{!forall x, Decision (Q x)} (xs : list A) :
  (forall x, P x -> Q x) -> (length (filter P xs) <= length (filter Q xs))%nat.
Proof.
  intros HPQ. induction xs as [|x xs IH]; [reflexivity|].
  rewrite !filter_cons. destruct (decide (P x)) as [HP|HP].
  - rewrite decide_True by (by apply HPQ). cbn. lia.
  - destruct (decide (Q x)); cbn; lia.
Qed.

(** C4, as the code has it.  In every state [main] reaches and for every
    configured link, at most one goroutine has a request for the link in
    flight or a timer set for it (never two requests, never a request and a
    timer), and exactly one goroutine works on the link at all, the phases
    between the request and the timer counted.  From the step that completes
    a check of the link, be it the return of the request or the later
    hand-over of the link by [checkLink], at least [delay] passes on the
    clock before a goroutine calls [http.Get] on the link again. *)
Theorem one_activity_per_target (acts : list Action) (s : State) (l : string) :
  run (start main) acts = Some s -> l ∈ links ->
  (count_pending l s <= 1)%nat /\
  count_in_flight l s = 1%nat /\
  forall a s1 acts' s2 a',
    completes l s a -> step s a = Some s1 ->
    run s1 acts' = Some s2 -> starts_probe l s2 a' ->
    now s + delay <= now s2.
Proof.
  intros Hr Hl.
  destruct (reach_shape links acts s links_nonempty Hr) as (a & HI & ->).
  assert (Hone : count_in_flight l (conc links a) = 1%nat).
  { rewrite (count_in_flight_conc links a l links_NoDup HI).
    by rewrite bool_decide_eq_true_2. }
  split; [|split; [exact Hone|]].
  - rewrite <- Hone. unfold count_pending, count_in_flight.
    apply filter_length_le. intros t. apply pending_in_flight.
  - intros act s1 acts' s2 act' Hc Hs Hr' Hp.
    destruct (Resting_begins links a act s1 l links_NoDup HI Hc Hs) as (a1 & -> & HI1 & Hrest).
    destruct (run_conc_awake links (fun x => Inv links x /\ Resting l (a_now a) x))
      with (acts := acts') (a := a1) (s := s2) as (a2 & [_ Hrest2] & ->).
    + intros x act0 x' [HIx Hx] Hstep. split.
      * eapply Inv_step; eauto.
      * eapply Resting_step; eauto.
    + intros x [HIx _]. by apply (Inv_awake links), HIx; apply links_nonempty.
    + by split.
    + exact Hr'.
    + exact (Resting_ends links a2 act' l (a_now a) Hrest2 Hp).
Qed.

Lemma one_activity_per_target_witness :
  exists s s2,
    run (start main) (repeat (ARun O) 6 ++ [ARun 1%nat]) = Some s /\
    run s [AGetDone 1%nat (Http.completed 200); ARun 1%nat; AComm 1%nat O; ARun O;
           ARun 6%nat; ATick 5000000000; AWake 6%nat] = Some s2 /\
    (count_pending "http://google.com" s <= 1)%nat /\
    count_in_flight "http://google.com" s = 1%nat /\
    now s + delay <= now s2.
Proof.
  eexists. eexists. split; [vm_compute; reflexivity|]. split; [vm_compute; reflexivity|].
  match goal with
  | |- (count_pending _ ?s <= _)%nat /\ _ /\ _ <= now ?s2 =>
      destruct (one_activity_per_target (repeat (ARun O) 6 ++ [ARun 1%nat]) s
                  "http://google.com" eq_refl)
        as (Hpending & Hflight & Hdelay);
      [apply (bool_decide_unpack _); vm_compute; exact I|];
      split; [exact Hpending|]; split; [exact Hflight|];
      eapply (Hdelay (AGetDone 1%nat (Http.completed 200)) _
                [ARun 1%nat; AComm 1%nat O; ARun O; ARun 6%nat; ATick 5000000000;
                 AWake 6%nat]
                s2 (ARun 6%nat))
  end.
  - left. exists 1%nat, (Http.completed 200), (report "http://google.com" O).
    split; reflexivity.
  - vm_compute. reflexivity.
  - vm_compute. reflexivity.
  - exists 6%nat, (report "http://google.com" O). split; reflexivity.
Defined.

(** C4, as the claim has it, fails: after the request for a link has
    returned and its line is printed, the goroutine waits to hand the link
    over; at that instant the link has neither a request in flight nor a
    timer. *)
Lemma pending_gap :
  "http://google.com" ∈ links /\
  option_map (count_pending "http://google.com")
    (run (start main)
       (repeat (ARun O) 6 ++ [ARun 1%nat; AGetDone 1%nat (Http.completed 200); ARun 1%nat]))
  = Some O.
Proof.
  split; [apply (bool_decide_unpack _); vm_compute; exact I|].
  vm_compute. reflexivity.
Qed.

(** ** Two runs that differ in how the requests end *)

Lemma erase_worker_eq w1 w2 :
  erase_worker w1 = erase_worker w2 ->
  fst w1 = fst w2 /\
  (snd w1 = snd w2 \/ exists r1 r2, snd w1 = PReport r1 /\ snd w2 = PReport r2).
Proof.
  destruct w1 as [l1 ph1], w2 as [l2 ph2]. unfold erase_worker. cbn.
  destruct ph1, ph2; intros H; inversion H; subst; split; eauto.
Qed.

Lemma erase_lookup (ws1 ws2 : list (string * Phase)) (i : nat) :
  map erase_worker ws1 = map erase_worker ws2 ->
  match ws1 !! i, ws2 !! i with
  | Some w1, Some w2 => erase_worker w1 = erase_worker w2
  | None, None => True
  | _, _ => False
  end.
Proof.
  intros Heq.
  assert (H : erase_worker <$> ws1 !! i = erase_worker <$> ws2 !! i)
    by (rewrite <- !list_lookup_fmap; by f_equal).
  destruct (ws1 !! i), (ws2 !! i); cbn [fmap option_fmap option_map] in H;
    try done. by injection H.
Qed.

Lemma erase_insert (ws1 ws2 : list (string * Phase)) (i : nat) w1 w2 :
  map erase_worker ws1 = map erase_worker ws2 ->
  erase_worker w1 = erase_worker w2 ->
  map erase_worker (<[i := w1]> ws1) = map erase_worker (<[i := w2]> ws2).
Proof.
  intros Heq Hw.
  change (erase_worker <$> <[i := w1]> ws1 = erase_worker <$> <[i := w2]> ws2).
  rewrite !list_fmap_insert. rewrite Hw. f_equal. exact Heq.
Qed.

Lemma erase_app (ws1 ws2 : list (string * Phase)) w :
  map erase_worker ws1 = map erase_worker ws2 ->
  map erase_worker (ws1 ++ [w]) = map erase_worker (ws2 ++ [w]).
Proof. intros Heq. rewrite !map_app. by rewrite Heq. Qed.

Lemma erase_adead a1 a2 : erase a1 = erase a2 -> adead a1 = adead a2.
Proof.
  destruct a1 as [t1 m1 ws1 o1], a2 as [t2 m2 ws2 o2]. unfold erase, adead. cbn.
  intros [= -> -> Hws]. destruct m2 as [|[|x rest]|x]; try reflexivity.
  revert ws2 Hws. induction ws1 as [|w1 ws1 IH]; intros [|w2 ws2] Hws; try discriminate.
  - reflexivity.
  - cbn in Hws. injection Hws as Hw Hws. cbn. rewrite (IH ws2 Hws). f_equal.
    apply erase_worker_eq in Hw as [_ [Hph|(r1 & r2 & H1 & H2)]];
      unfold is_done; [by rewrite Hph | by rewrite H1, H2].
Qed.

Ltac erased_workers Hws :=
  unfold erase; cbn; f_equal;
  first [ exact Hws
        | apply erase_insert; [exact Hws | reflexivity]
        | apply erase_app; exact Hws ].

(** The described steps of two runs stay in step: the same steps are
    possible, and they lead to shapes that differ at most in the outcome a
    goroutine is about to report. *)
Lemma erase_step ls a1 a2 act1 act2 :
  erase a1 = erase a2 -> same_choice act1 act2 ->
  match astep ls a1 act1, astep ls a2 act2 with
  | Some a1', Some a2' => erase a1' = erase a2'
  | None, None => True
  | _, _ => False
  end.
Proof.
  destruct a1 as [t1 m1 ws1 o1], a2 as [t2 m2 ws2 o2]. unfold erase at 1 2. cbn.
  intros [= -> -> Hws] Hc.
  destruct act1 as [i|i j|i r|i|d| |], act2 as [i'|i' j'|i' r'|i'|d'| |];
    cbn in Hc; try discriminate Hc.
  - (* a statement *)
    injection Hc as <-. destruct i as [|i]; cbn.
    + destruct m2 as [|[|x rest]|x]; cbn; try exact I; erased_workers Hws.
    + pose proof (erase_lookup ws1 ws2 i Hws) as Hl.
      destruct (ws1 !! i) as [[l1 ph1]|], (ws2 !! i) as [[l2 ph2]|]; try done.
      apply erase_worker_eq in Hl as [Hlink Hph]. cbn in Hlink, Hph. subst l2.
      destruct Hph as [<-|(r1 & r2 & -> & ->)].
      * destruct ph1; cbn; try exact I; erased_workers Hws.
      * cbn. erased_workers Hws.
  - (* a hand-off *)
    injection Hc as <- <-. destruct i as [|i], j as [|j]; cbn; try exact I.
    pose proof (erase_lookup ws1 ws2 i Hws) as Hl.
    destruct (ws1 !! i) as [[l1 ph1]|], (ws2 !! i) as [[l2 ph2]|]; try done.
    apply erase_worker_eq in Hl as [Hlink Hph]. cbn in Hlink, Hph. subst l2.
    destruct Hph as [<-|(r1 & r2 & -> & ->)]; [|exact I].
    destruct ph1; try exact I.
    destruct m2 as [|[|x rest]|x]; try exact I. erased_workers Hws.
  - (* a request returns, one way or another *)
    subst i'. destruct i as [|i]; cbn; try exact I.
    pose proof (erase_lookup ws1 ws2 i Hws) as Hl.
    destruct (ws1 !! i) as [[l1 ph1]|], (ws2 !! i) as [[l2 ph2]|]; try done.
    apply erase_worker_eq in Hl as [Hlink Hph]. cbn in Hlink, Hph. subst l2.
    destruct Hph as [<-|(r1 & r2 & -> & ->)]; [|exact I].
    destruct ph1; try exact I. erased_workers Hws.
  - (* a timer fires *)
    injection Hc as <-. destruct i as [|i]; cbn; try exact I.
    pose proof (erase_lookup ws1 ws2 i Hws) as Hl.
    destruct (ws1 !! i) as [[l1 ph1]|], (ws2 !! i) as [[l2 ph2]|]; try done.
    apply erase_worker_eq in Hl as [Hlink Hph]. cbn in Hlink, Hph. subst l2.
    destruct Hph as [<-|(r1 & r2 & -> & ->)]; [|exact I].
    destruct ph1 as [| | | | | |u]; try exact I.
    destruct (u <=? t2); [|exact I]. erased_workers Hws.
  - (* time passes *)
    injection Hc as <-. cbn. destruct (0 <? d); [|exact I]. erased_workers Hws.
  - exact I.
  - exact I.
Qed.

Lemma erased_Forall2 (ws1 ws2 : list (string * Phase)) :
  map erase_worker ws1 = map erase_worker ws2 ->
  Forall2 (fun w1 w2 => erase_worker w1 = erase_worker w2) ws1 ws2.
Proof.
  revert ws2. induction ws1 as [|w1 ws1 IH]; intros [|w2 ws2] Heq; try discriminate.
  - constructor.
  - cbn in Heq. injection Heq as Hw Hws. constructor; [exact Hw | by apply IH].
Qed.

Lemma worker_blind w1 w2 :
  erase_worker w1 = erase_worker w2 ->
  thread_blind (worker_thread O w1) (worker_thread O w2).
Proof.
  intros Hw. apply erase_worker_eq in Hw as [Hlink Hph].
  destruct w1 as [l ph1], w2 as [l2 ph2]. cbn in Hlink, Hph. subst l2.
  destruct Hph as [<-|(r1 & r2 & -> & ->)]; [by left|].
  right. unfold worker_thread, report. cbn.
  destruct r1 as [resp1 [e1|]], r2 as [resp2 [e2|]]; cbn; eauto.
Qed.

Lemma blind_conc ls a1 a2 st :
  erase a1 = erase a2 ->
  blind (set_status (conc ls a1) st) (set_status (conc ls a2) st).
Proof.
  destruct a1 as [t1 m1 ws1 o1], a2 as [t2 m2 ws2 o2]. unfold erase. cbn.
  intros [= -> -> Hws]. unfold blind. cbn. repeat split.
  constructor; [by left|].
  apply Forall2_fmap. eapply Forall2_impl; [apply erased_Forall2; exact Hws|].
  intros w1 w2. apply worker_blind.
Qed.

Lemma blind_run ls acts1 acts2 :
  Forall2 same_choice acts1 acts2 ->
  forall a1 a2 s1,
    erase a1 = erase a2 -> run (conc ls a1) acts1 = Some s1 ->
    exists s2, run (conc ls a2) acts2 = Some s2 /\ blind s1 s2.
Proof.
  induction 1 as [|act1 act2 acts1 acts2 Hc Hrest IH]; intros a1 a2 s1 Heq; cbn [run].
  - intros [= <-]. exists (conc ls a2). split; [reflexivity|].
    exact (blind_conc ls a1 a2 Live Heq).
  - rewrite !step_conc.
    pose proof (erase_step ls a1 a2 act1 act2 Heq Hc) as Hstep.
    assert (Hdead : act1 = ADeadlock -> act2 = ADeadlock)
      by (intros ->; destruct act2; cbn in Hc; congruence).
    assert (Hlive : act1 <> ADeadlock -> act2 <> ADeadlock)
      by (intros Hne ->; destruct act1; cbn in Hc; congruence).
    assert (Hcase : act1 = ADeadlock \/ act1 <> ADeadlock)
      by (destruct act1; auto; right; discriminate).
    destruct Hcase as [->|Hne].
    + rewrite (Hdead eq_refl). cbn [refined]. rewrite <- (erase_adead a1 a2 Heq).
      destruct (adead a1); [|discriminate].
      intros Hr. apply run_halted in Hr as [-> ->]; [|discriminate].
      inversion Hrest; subst. eexists. split; [reflexivity|].
      exact (blind_conc ls a1 a2 (Fatal deadlock_msg) Heq).
    + specialize (Hlive Hne).
      assert (H1 : refined ls a1 act1 = conc ls <$> astep ls a1 act1)
        by (destruct act1; first [reflexivity | congruence]).
      assert (H2 : refined ls a2 act2 = conc ls <$> astep ls a2 act2)
        by (destruct act2; first [reflexivity | congruence]).
      rewrite H1, H2.
      destruct (astep ls a1 act1) as [a1'|], (astep ls a2 act2) as [a2'|];
        try done. cbn. by apply IH.
Qed.

(** C6.  Scheduling is blind to outcomes.  Take any run of [main] and any
    second schedule that makes the same choices but lets the requests end
    differently, with errors where the first had responses or the other way
    round.  The first run has not aborted and still has every configured
    link in the work of exactly one goroutine; the second schedule runs as
    well, and the two final states have the same clock, channels and status
    and the same goroutines with the same code, launched relaunch tasks and
    timers included, except for the text a goroutine is about to print. *)
Theorem scheduling_is_outcome_blind (acts1 acts2 : list Action) (s1 : State) :
  Forall2 same_choice acts1 acts2 ->
  run (start main) acts1 = Some s1 ->
  status s1 = Live /\
  (forall l, l ∈ links -> count_in_flight l s1 = 1%nat) /\
  exists s2, run (start main) acts2 = Some s2 /\ blind s1 s2.
Proof.
  intros Hsame Hr. split; [|split].
  - by destruct (reach_shape links acts1 s1 links_nonempty Hr) as (a & _ & ->).
  - intros l Hl.
    destruct (reach_shape links acts1 s1 links_nonempty Hr) as (a & HI & ->).
    rewrite (count_in_flight_conc links a l links_NoDup HI).
    by rewrite bool_decide_eq_true_2.
  - unfold main in *. rewrite start_conc in Hr.
    setoid_rewrite start_conc.
    exact (blind_run links acts1 acts2 Hsame a_start a_start s1 eq_refl Hr).
Qed.

Lemma scheduling_is_outcome_blind_witness :
  exists s1,
    run (start main)
      [ARun O; ARun O; ARun O; ARun O; ARun O; ARun O;
       ARun 1%nat; AGetDone 1%nat (Http.completed 200); ARun 1%nat; AComm 1%nat O; ARun O;
       ARun 2%nat; AGetDone 2%nat (Http.failed "no route to host")]
    = Some s1 /\
    status s1 = Live /\
    exists s2,
      run (start main)
        [ARun O; ARun O; ARun O; ARun O; ARun O; ARun O;
         ARun 1%nat; AGetDone 1%nat (Http.failed "timeout"); ARun 1%nat; AComm 1%nat O; ARun O;
         ARun 2%nat; AGetDone 2%nat (Http.completed 500)]
      = Some s2 /\
      blind s1 s2.
Proof.
  eexists. split; [vm_compute; reflexivity|].
  match goal with
  | |- status ?s = _ /\ exists s2, run _ ?acts2 = _ /\ _ =>
      destruct (scheduling_is_outcome_blind
                  [ARun O; ARun O; ARun O; ARun O; ARun O; ARun O;
                   ARun 1%nat; AGetDone 1%nat (Http.completed 200); ARun 1%nat;
                   AComm 1%nat O; ARun O;
                   ARun 2%nat; AGetDone 2%nat (Http.failed "no route to host")]
                  acts2 s) as (Hlive & _ & Hblind)
  end.
  - repeat constructor.
  - reflexivity.
  - split; [exact Hlive | exact Hblind].
Defined.

(** ** A goroutine at its send is served *)

Lemma main_to_receive ls a :
  exists n a',
    run (conc ls a) (repeat (ARun O) n) = Some (conc ls a') /\
    a_main a' = MSpawning [] /\
    forall (j : nat) w, a_workers a !! j = Some w -> a_workers a' !! j = Some w.
Proof.
  destruct a as [t m ws out]. destruct m as [|rest|l].
  - exists (S (length ls)). eexists. cbn [repeat run]. rewrite step_conc. cbn.
    change (mkState t (Running (spawn_checks ls O (receive_loop O)) :: map (worker_thread O) ws)
              1 [] out Live)
      with (conc ls (mkAbs t (MSpawning ls) ws out)).
    rewrite spawn_all. split; [reflexivity|]. split; [reflexivity|].
    cbn. intros j w Hj. by apply lookup_app_l_Some.
  - exists (length rest). eexists. rewrite spawn_all.
    split; [reflexivity|]. split; [reflexivity|].
    cbn. intros j w Hj. by apply lookup_app_l_Some.
  - exists 1%nat. eexists. cbn [repeat run]. rewrite step_conc. cbn.
    split; [reflexivity|]. split; [reflexivity|].
    cbn. intros j w Hj. by apply lookup_app_l_Some.
Qed.

Lemma send_is_served acts s i c v k :
  run (start main) acts = Some s ->
  threads s !! i = Some (Running (Send c v k)) ->
  k = Return /\
  exists n s',
    run s (repeat (ARun O) n ++ [AComm i O]) = Some s' /\
    threads s' !! i = Some (Running Return) /\
    step s' (ARun i) = None /\ (forall j, step s' (AComm i j) = None).
Proof.
  intros Hr Hi.
  destruct (reach_shape links acts s links_nonempty Hr) as (a & HI & ->).
  apply conc_thread_inv in Hi as [[-> Hm]|(j & [x ph] & -> & Hw & Ht)].
  { destruct (a_main a) as [|[|y rest]|y]; discriminate. }
  destruct ph as [| |[resp [e|]]| | | |u]; try discriminate.
  cbn in Ht. injection Ht as -> -> ->. split; [reflexivity|].
  destruct (main_to_receive links a) as (n & a' & Hrun & Hmain & Hkeep).
  remember (mkAbs (a_now a') (MHold x) (<[j:=(x, PDone)]> (a_workers a')) (a_out a'))
    as a'' eqn:Ha''.
  assert (Hdone : a_workers a'' !! j = Some (x, PDone)).
  { rewrite Ha''. cbn. apply list_lookup_insert_eq.
    eapply lookup_lt_Some. exact (Hkeep j _ Hw). }
  exists n, (conc links a''). split; [|split; [|split]].
  - rewrite run_app, Hrun. cbn [run]. rewrite step_conc. cbn.
    by rewrite (Hkeep j _ Hw), Hmain, Ha''.
  - by rewrite lookup_worker, Hdone.
  - rewrite step_conc. cbn [refined astep]. by rewrite Hdone.
  - intros j'. rewrite step_conc. destruct j' as [|j']; cbn [refined astep];
      by rewrite ?Hdone.
Qed.

(** C2.  One send per invocation of the Checker.  However the request ends,
    a goroutine running [checkLink link c] performs exactly one send, of
    [link] on [c]; the send is its last action, and what follows it in the
    code is the return of the function.  In every state [main] reaches, a
    goroutine at its send is served once main has taken finitely many steps
    of its own, and after the hand-off it has returned: it can neither run
    nor send again. *)
Theorem checker_sends_once (link : string) (c : chan) (r : Http.Result) :
  omap sent (trace r (checkLink link c)) = [(c, link)] /\
  last (trace r (checkLink link c)) = Some (EvSend c link) /\
  (exists args, report link c r = Println args (Send c link Return)) /\
  (forall acts s i v k,
     run (start main) acts = Some s ->
     threads s !! i = Some (Running (Send c v k)) ->
     k = Return /\
     exists n s',
       run s (repeat (ARun O) n ++ [AComm i O]) = Some s' /\
       threads s' !! i = Some (Running Return) /\
       step s' (ARun i) = None /\ (forall j, step s' (AComm i j) = None)).
Proof.
  split; [|split; [|split]].
  - unfold checkLink, report. cbn [trace]. by destruct r as [resp [e|]].
  - unfold checkLink, report. cbn [trace]. by destruct r as [resp [e|]].
  - unfold report. destruct r as [resp [e|]]; cbn; eauto.
  - intros acts s i v k. apply send_is_served.
Qed.

Lemma checker_sends_once_witness :
  exists s,
    run (start main)
      [ARun O; ARun O; ARun O; ARun 1%nat; AGetDone 1%nat (Http.failed "timeout"); ARun 1%nat]
    = Some s /\
    threads s !! 1%nat = Some (Running (Send O "http://google.com" Return)) /\
    exists n s',
      run s (repeat (ARun O) n ++ [AComm 1%nat O]) = Some s' /\
      threads s' !! 1%nat = Some (Running Return) /\
      step s' (ARun 1%nat) = None /\ (forall j, step s' (AComm 1%nat j) = None).
Proof.
  eexists. split; [vm_compute; reflexivity|]. split; [reflexivity|].
  match goal with
  | |- exists n s', run ?s _ = _ /\ _ =>
      exact (proj2 (proj2 (proj2 (proj2
               (checker_sends_once "http://google.com" O (Http.failed "timeout"))))
               [ARun O; ARun O; ARun O; ARun 1%nat; AGetDone 1%nat (Http.failed "timeout");
                ARun 1%nat]
               s 1%nat "http://google.com" Return eq_refl eq_refl))
  end.
Defined.

(** * Further properties of [main] and [checkLink] *)

(** ** Any list of links *)

Lemma reach_any ls acts s :
  run (start (main_with ls)) acts = Some s ->
  exists a, Inv ls a /\
    (s = conc ls a \/ (adead a = true /\ s = dead_state (conc ls a))).
Proof.
  rewrite start_conc. apply (run_conc ls (Inv ls)).
  - intros a act a'. apply Inv_step.
  - apply Inv_start.
Qed.

Lemma tokens_length ls a :
  Inv ls a ->
  (length (main_tokens ls (a_main a)) + length (omap active (a_workers a)))%nat = length ls.
Proof.
  intros HI. unfold Inv, tokens in HI. apply Permutation_length in HI.
  by rewrite length_app in HI.
Qed.

Lemma count_live_workers ws :
  length (filter (fun t => finished t = false) (map (worker_thread O) ws)) =
  length (omap active ws).
Proof.
  induction ws as [|[l ph] ws IH]; [reflexivity|].
  cbn [map].
  change (omap active ((l, ph) :: ws)) with (match active (l, ph) with
                                             | Some y => y :: omap active ws
                                             | None => omap active ws
                                             end).
  destruct ph as [| |[resp [e|]]| | | |u]; cbn [active snd fst];
    first [ rewrite filter_cons_True by reflexivity; cbn [length]; by rewrite IH
          | rewrite filter_cons_False by (cbn; discriminate); exact IH ].
Qed.

Lemma live_goroutines_conc ls a :
  live_goroutines (conc ls a) = S (length (omap active (a_workers a))).
Proof.
  unfold live_goroutines. cbn [threads conc].
  rewrite filter_cons_True by apply main_not_finished.
  cbn [length]. by rewrite count_live_workers.
Qed.

(** No goroutine is lost and none accumulates: main and at most one
    goroutine per configured link exist, and exactly one per link once main
    is at the receive. *)
Theorem goroutines_are_conserved ls acts s :
  run (start (main_with ls)) acts = Some s ->
  (live_goroutines s <= S (length ls))%nat /\
  (threads s !! O = Some (Running (receive_loop O)) ->
   live_goroutines s = S (length ls)).
Proof.
  intros Hr. destruct (reach_any ls acts s Hr) as (a & HI & Hs).
  assert (Hlive : live_goroutines s = S (length (omap active (a_workers a))))
    by (destruct Hs as [->|[_ ->]]; apply live_goroutines_conc).
  assert (Hmain : threads s !! O = Some (main_thread ls (a_main a)))
    by (destruct Hs as [->|[_ ->]]; reflexivity).
  pose proof (tokens_length ls a HI) as Hlen. rewrite Hlive. split; [lia|].
  rewrite Hmain. intros Hm.
  destruct (a_main a) as [|[|x rest]|x]; try discriminate. cbn in Hlen. lia.
Qed.

Lemma goroutines_are_conserved_witness :
  exists s,
    run (start main)
      (repeat (ARun O) 6 ++
       [ARun 1%nat; AGetDone 1%nat (Http.completed 200); ARun 1%nat; AComm 1%nat O; ARun O])
    = Some s /\
    length (threads s) = 7%nat /\ live_goroutines s = 6%nat.
Proof.
  eexists. split; [vm_compute; reflexivity|]. split; [reflexivity|].
  match goal with
  | |- live_goroutines ?s = _ =>
      exact (proj2 (goroutines_are_conserved links
                      (repeat (ARun O) 6 ++
                       [ARun 1%nat; AGetDone 1%nat (Http.completed 200); ARun 1%nat;
                        AComm 1%nat O; ARun O])
                      s eq_refl) eq_refl)
  end.
Defined.



(** ** One channel, one receiver *)

Lemma no_worker_before_make ls a (j : nat) w :
  Inv ls a -> a_main a = MStart -> a_workers a !! j = Some w -> active w = None.
Proof.
  intros HI Hm Hw. pose proof (tokens_length ls a HI) as Hlen.
  rewrite Hm in Hlen. cbn in Hlen.
  destruct (active w) as [l|] eqn:Hact; [|reflexivity]. exfalso.
  assert (Hin : l ∈ omap active (a_workers a)).
  { apply list_elem_of_omap. exists w. split; [|exact Hact].
    eapply list_elem_of_lookup_2. exact Hw. }
  destruct (omap active (a_workers a)); [by apply elem_of_nil in Hin|].
  cbn in Hlen. lia.
Qed.

(** The channel main makes is the only one; main is its only receiver, and
    every other goroutine that touches it sends one configured link on it
    and then returns. *)
Theorem one_channel_one_receiver ls acts s :
  run (start (main_with ls)) acts = Some s ->
  (nchan s <= 1)%nat /\
  (forall i c body after,
     threads s !! i = Some (Running (ForRange c body after)) ->
     i = O /\ c = O /\ nchan s = 1%nat) /\
  (forall i c v k,
     threads s !! i = Some (Running (Send c v k)) ->
     i <> O /\ c = O /\ nchan s = 1%nat /\ v ∈ ls /\ k = Return).
Proof.
  intros Hr. destruct (reach_any ls acts s Hr) as (a & HI & Hs).
  assert (Hth : threads s = threads (conc ls a)) by (destruct Hs as [->|[_ ->]]; reflexivity).
  assert (Hn : nchan s = nchan (conc ls a)) by (destruct Hs as [->|[_ ->]]; reflexivity).
  rewrite Hth, Hn. clear Hs Hth Hn Hr. split; [|split].
  - cbn. destruct (a_main a); lia.
  - intros i c body after Hi.
    apply conc_thread_inv in Hi as [[-> Hm]|(j & [x ph] & -> & Hw & Ht)].
    + cbn. destruct (a_main a) as [|[|y rest]|y]; try discriminate.
      injection Hm as ->. auto.
    + destruct ph as [| |[resp [e|]]| | | |u]; discriminate.
  - intros i c v k Hi.
    apply conc_thread_inv in Hi as [[-> Hm]|(j & [x ph] & -> & Hw & Ht)].
    + destruct (a_main a) as [|[|y rest]|y]; discriminate.
    + destruct ph as [| |[resp [e|]]| | | |u]; try discriminate.
      cbn in Ht. injection Ht as -> -> ->.
      split; [discriminate|]. split; [reflexivity|]. split; [|split; [|reflexivity]].
      * cbn. destruct (a_main a) eqn:Hm; try reflexivity.
        pose proof (no_worker_before_make ls a j _ HI Hm Hw). discriminate.
      * eapply active_in_links; [exact HI | exact Hw | reflexivity].
Qed.

Lemma one_channel_one_receiver_witness :
  exists s,
    run (start main)
      (repeat (ARun O) 6 ++ [ARun 5%nat; AGetDone 5%nat (Http.failed "EOF"); ARun 5%nat])
    = Some s /\
    threads s !! 5%nat = Some (Running (Send O "http://amazon.com" Return)) /\
    nchan s = 1%nat /\ "http://amazon.com" ∈ links.
Proof.
  eexists. split; [vm_compute; reflexivity|]. split; [reflexivity|].
  match goal with
  | |- nchan ?s = _ /\ _ =>
      destruct (proj2 (proj2 (one_channel_one_receiver links
                  (repeat (ARun O) 6 ++
                   [ARun 5%nat; AGetDone 5%nat (Http.failed "EOF"); ARun 5%nat])
                  s eq_refl))
                  5%nat O "http://amazon.com" Return eq_refl)
        as (_ & _ & Hn & Hin & _)
  end.
  split; [exact Hn | exact Hin].
Defined.

(** ** Timers *)

Lemma TimerBound_step ls a act a' :
  TimerBound a -> astep ls a act = Some a' -> TimerBound a'.
Proof.
  destruct a as [now0 m ws out]. unfold TimerBound. cbn. intros [Hnow Hws] Hs.
  destruct act as [[|i]|[|i] [|j]|[|i] r|[|i]|d| |]; cbn in Hs; try discriminate.
  - destruct m as [|[|x rest]|x]; try discriminate; injection Hs as <-; cbn;
      (split; [exact Hnow|]); try exact Hws.
    + apply Forall_app. split; [exact Hws|]. apply Forall_singleton. cbn. discriminate.
    + apply Forall_app. split; [exact Hws|]. apply Forall_singleton. cbn. discriminate.
  - destruct (ws !! i) as [[x ph]|] eqn:Hi; [|discriminate].
    destruct ph; try discriminate; injection Hs as <-; cbn;
      (split; [exact Hnow|]); apply Forall_insert; try exact Hws; cbn;
      intros u Hu; try discriminate.
    injection Hu as <-. lia.
  - destruct (ws !! i) as [[x ph]|] eqn:Hi; [|discriminate].
    destruct ph; try discriminate. destruct m as [|[|y rest]|y]; try discriminate.
    injection Hs as <-. cbn. split; [exact Hnow|].
    apply Forall_insert; [exact Hws|]. cbn. discriminate.
  - destruct (ws !! i) as [[x ph]|] eqn:Hi; [|discriminate].
    destruct ph; try discriminate. injection Hs as <-. cbn. split; [exact Hnow|].
    apply Forall_insert; [exact Hws|]. cbn. discriminate.
  - destruct (ws !! i) as [[x ph]|] eqn:Hi; [|discriminate].
    destruct ph as [| | | | | |u]; try discriminate.
    destruct (u <=? now0); [|discriminate]. injection Hs as <-. cbn.
    split; [exact Hnow|]. apply Forall_insert; [exact Hws|]. cbn. discriminate.
  - destruct (0 <? d) eqn:Hd; [|discriminate]. injection Hs as <-. cbn.
    apply Z.ltb_lt in Hd. split; [lia|].
    eapply Forall_impl; [exact Hws|]. cbn. intros w Hw u Hu.
    specialize (Hw u Hu). lia.
Qed.

(** The clock never runs backwards past the start, and every timer in the
    system was set by a [time.Sleep] that began between the start and now:
    its deadline is at least [delay] and at most [delay] ahead of the clock,
    so one tick of [delay] is always enough to make every timer due. *)
Theorem timers_within_delay ls acts s :
  run (start (main_with ls)) acts = Some s ->
  0 <= now s /\
  forall i u k,
    threads s !! i = Some (Sleeping u k) ->
    delay <= u <= now s + delay /\
    (status s = Live ->
     exists s', run s [ATick delay; AWake i] = Some s' /\
                threads s' !! i = Some (Running k)).
Proof.
  intros Hr. rewrite start_conc in Hr.
  destruct (run_conc ls TimerBound (TimerBound_step ls) acts a_start s) as (a & HT & Hs);
    [|exact Hr|].
  { unfold TimerBound. cbn. split; [lia|constructor]. }
  destruct HT as [Hnow Hws].
  assert (Hth : threads s = threads (conc ls a)) by (destruct Hs as [->|[_ ->]]; reflexivity).
  assert (Hn : now s = a_now a) by (destruct Hs as [->|[_ ->]]; reflexivity).
  rewrite Hn. split; [exact Hnow|]. intros i u k Hi.
  assert (Hu : delay <= u <= a_now a + delay).
  { rewrite Hth in Hi.
    apply conc_thread_inv in Hi as [[-> Hm]|(j & [x ph] & -> & Hw & Ht)].
    - destruct (a_main a) as [|[|y rest]|y]; discriminate.
    - destruct ph as [| |[resp [e|]]| | | |u']; try discriminate.
      cbn in Ht. injection Ht as Hu' _. subst u'.
      exact (Forall_lookup_1 _ _ _ _ Hws Hw u eq_refl). }
  split; [exact Hu|]. intros Hst.
  cbn [run]. unfold step at 1. rewrite Hst. cbn [live_step].
  change (0 <? delay) with true. cbn iota.
  unfold step. cbn [status]. rewrite Hst. cbn [live_step threads now]. rewrite Hi.
  rewrite Hn. destruct (u <=? a_now a + delay) eqn:Hle; [|apply Z.leb_gt in Hle; lia].
  eexists. split; [reflexivity|]. cbn.
  apply list_lookup_insert_eq. eapply lookup_lt_Some. exact Hi.
Qed.

Lemma timers_within_delay_witness :
  exists s,
    run (start main)
      (repeat (ARun O) 6 ++
       [ATick 250; ARun 1%nat; AGetDone 1%nat (Http.completed 200); ARun 1%nat;
        AComm 1%nat O; ARun O; ARun 6%nat; ATick 1000])
    = Some s /\
    threads s !! 6%nat = Some (Sleeping 5000000250 (checkLink "http://google.com" O)) /\
    now s = 1250 /\
    exists s', run s [ATick delay; AWake 6%nat] = Some s' /\
               threads s' !! 6%nat = Some (Running (checkLink "http://google.com" O)).
Proof.
  eexists. split; [vm_compute; reflexivity|]. split; [reflexivity|]. split; [reflexivity|].
  match goal with
  | |- exists s', run ?s _ = _ /\ _ =>
      exact (proj2 (proj2 (timers_within_delay links
               (repeat (ARun O) 6 ++
                [ATick 250; ARun 1%nat; AGetDone 1%nat (Http.completed 200); ARun 1%nat;
                 AComm 1%nat O; ARun O; ARun 6%nat; ATick 1000])
               s eq_refl)
               6%nat 5000000250 (checkLink "http://google.com" O) eq_refl) eq_refl)
  end.
Defined.

(** ** The output *)

Lemma append_nil_r (s : string) : String.append s EmptyString = s.
Proof.
  induction s as [|a s IH]; [reflexivity|].
  change (String a (String.append s EmptyString) = String a s). by rewrite IH.
Qed.

Lemma append_assoc (s1 s2 s3 : string) :
  String.append (String.append s1 s2) s3 = String.append s1 (String.append s2 s3).
Proof.
  induction s1 as [|a s1 IH]; [reflexivity|].
  change (String a (String.append (String.append s1 s2) s3) =
          String a (String.append s1 (String.append s2 s3))).
  by rewrite IH.
Qed.

Lemma join_lines_snoc lines line :
  join_lines (lines ++ [line]) = String.append (join_lines lines) line.
Proof.
  induction lines as [|x lines IH]; cbn [app join_lines].
  - apply append_nil_r.
  - by rewrite IH, append_assoc.
Qed.

Lemma count_insert {A} (P : A -> Prop) `{!forall x, Decision (P x)}
    (xs : list A) (i : nat) (x y : A) :
  xs !! i = Some x ->
  (length (filter P (<[i := y]> xs)) + (if decide (P x) then 1 else 0) =
   length (filter P xs) + (if decide (P y) then 1 else 0))%nat.
Proof.
  intros Hi. rewrite insert_take_drop by (eapply lookup_lt_Some; exact Hi).
  rewrite <- (take_drop_middle xs i x Hi) at 3.
  rewrite !filter_app, !filter_cons, !length_app.
  destruct (decide (P x)), (decide (P y)); cbn; lia.
Qed.

Lemma count_insert_same (ws : list (string * Phase)) (i : nat) w w' :
  ws !! i = Some w -> has_printed w' = has_printed w ->
  length (filter (fun w => has_printed w = true) (<[i := w']> ws)) =
  length (filter (fun w => has_printed w = true) ws).
Proof.
  intros Hi Hsame.
  pose proof (count_insert (fun w => has_printed w = true) ws i w w' Hi) as H.
  cbn beta in H. rewrite Hsame in H. destruct (decide (has_printed w = true)); lia.
Qed.

Lemma run_conc_on ls (A : Action -> Prop) (P : Abs -> Prop) :
  (forall a act a', P a -> A act -> astep ls a act = Some a' -> P a') ->
  forall acts a s, Forall A acts -> P a -> run (conc ls a) acts = Some s ->
    exists a', P a' /\
      (s = conc ls a' \/ (adead a' = true /\ s = dead_state (conc ls a'))).
Proof.
  intros Hstep acts. induction acts as [|act acts IH]; intros a s HA HP; cbn [run].
  - intros [= <-]. exists a. auto.
  - apply Forall_cons in HA as [Hact HA]. rewrite step_conc. unfold refined.
    destruct act; try (destruct (astep ls a _) as [a'|] eqn:Ha; cbn; [|discriminate];
                       apply IH; [exact HA | eapply Hstep; eauto]).
    destruct (adead a) eqn:Hd; [|discriminate].
    intros Hr. apply run_halted in Hr as [_ ->]; [|discriminate].
    exists a. auto.
Qed.

Lemma Printed_step ls Q a act a' :
  Inv ls a -> Printed ls Q a -> result_satisfies Q act ->
  astep ls a act = Some a' -> Printed ls Q a'.
Proof.
  intros HI [Hpend (reports & Hout & Hrep & Hlen)] HQ Hs.
  destruct a as [now0 m ws out]. cbn in Hpend, Hout, Hlen.
  destruct act as [[|i]|[|i] [|j]|[|i] r|[|i]|d| |]; cbn in Hs; try discriminate.
  - destruct m as [|[|x rest]|x]; try discriminate; injection Hs as <-;
      (split; cbn; [|exists reports; cbn; split; [exact Hout|]; split; [exact Hrep|]]);
      try assumption.
    + apply Forall_app. split; [exact Hpend|]. apply Forall_singleton. cbn. discriminate.
    + rewrite filter_app, length_app, filter_cons_False by (cbn; discriminate).
      cbn. lia.
    + apply Forall_app. split; [exact Hpend|]. apply Forall_singleton. cbn. discriminate.
    + rewrite filter_app, length_app, filter_cons_False by (cbn; discriminate).
      cbn. lia.
  - destruct (ws !! i) as [[x ph]|] eqn:Hi; [|discriminate].
    destruct ph as [| |r| | | |u]; try discriminate; injection Hs as <-.
    + split; cbn.
      * apply Forall_insert; [exact Hpend|]. cbn. discriminate.
      * exists reports. cbn. split; [exact Hout|]. split; [exact Hrep|].
        by rewrite (count_insert_same ws i (x, PCheck)).
    + split; cbn.
      * apply Forall_insert; [exact Hpend|]. cbn. discriminate.
      * exists (reports ++ [(x, r)]). cbn [a_out a_workers fst snd]. split; [|split].
        -- rewrite map_app. cbn [map]. rewrite join_lines_snoc, Hout. reflexivity.
        -- apply Forall_app. split; [exact Hrep|]. apply Forall_singleton. cbn. split.
           ++ eapply (active_in_links ls _ i (x, PReport r)); [exact HI|exact Hi|reflexivity].
           ++ exact (Forall_lookup_1 _ _ _ _ Hpend Hi r eq_refl).
        -- rewrite length_app. cbn [length].
           pose proof (count_insert (fun w => has_printed w = true) ws i
                         (x, PReport r) (x, PSend) Hi) as H.
           cbn beta in H.
           rewrite (decide_False (P := has_printed (x, PReport r) = true)) in H
             by (cbn; discriminate).
           rewrite (decide_True (P := has_printed (x, PSend) = true)) in H
             by reflexivity.
           lia.
    + split; cbn.
      * apply Forall_insert; [exact Hpend|]. cbn. discriminate.
      * exists reports. cbn. split; [exact Hout|]. split; [exact Hrep|].
        by rewrite (count_insert_same ws i (x, PRelaunch)).
  - destruct (ws !! i) as [[x ph]|] eqn:Hi; [|discriminate].
    destruct ph; try discriminate. destruct m as [|[|y rest]|y]; try discriminate.
    injection Hs as <-. split; cbn.
    + apply Forall_insert; [exact Hpend|]. cbn. discriminate.
    + exists reports. cbn. split; [exact Hout|]. split; [exact Hrep|].
      by rewrite (count_insert_same ws i (x, PSend)).
  - destruct (ws !! i) as [[x ph]|] eqn:Hi; [|discriminate].
    destruct ph; try discriminate. injection Hs as <-. split; cbn.
    + apply Forall_insert; [exact Hpend|]. cbn. intros r' [= <-]. exact HQ.
    + exists reports. cbn. split; [exact Hout|]. split; [exact Hrep|].
      by rewrite (count_insert_same ws i (x, PProbing)).
  - destruct (ws !! i) as [[x ph]|] eqn:Hi; [|discriminate].
    destruct ph as [| | | | | |u]; try discriminate.
    destruct (u <=? now0); [|discriminate]. injection Hs as <-. split; cbn.
    + apply Forall_insert; [exact Hpend|]. cbn. discriminate.
    + exists reports. cbn. split; [exact Hout|]. split; [exact Hrep|].
      by rewrite (count_insert_same ws i (x, PSleeping u)).
  - destruct (0 <? d); [|discriminate]. injection Hs as <-.
    split; [exact Hpend|]. exists reports. auto.
Qed.

Lemma count_past_print_conc ls a :
  count_past_print (conc ls a) =
  length (filter (fun w => has_printed w = true) (a_workers a)).
Proof.
  unfold count_past_print. cbn [threads conc].
  rewrite filter_cons_False
    by (destruct (a_main a) as [|[|x rest]|x]; cbn; discriminate).
  induction (a_workers a) as [|[l ph] ws IH]; [reflexivity|].
  cbn [map].
  destruct ph as [| |[resp [e|]]| | | |u];
    first [ rewrite filter_cons_True by reflexivity;
            rewrite (filter_cons_True (fun w => has_printed w = true)) by reflexivity;
            cbn [length]; by rewrite IH
          | rewrite filter_cons_False by (cbn; discriminate);
            rewrite (filter_cons_False (fun w => has_printed w = true))
              by (cbn; discriminate);
            exact IH ].
Qed.

(** The output tells what happened and nothing else: it is the lines of
    reports on configured links, each with a result some request really
    ended with, one line per goroutine that is at its send or has returned.
    In particular, if no request of the run fails, every line says "is up!",
    and if every request fails, every line says "might be down!". *)
Theorem output_is_sound ls (Q : Http.Result -> Prop) acts s :
  Forall (result_satisfies Q) acts ->
  run (start (main_with ls)) acts = Some s ->
  exists reports : list (string * Http.Result),
    stdout s = join_lines (map report_line reports) /\
    Forall (fun w => fst w ∈ ls /\ Q (snd w)) reports /\
    length reports = count_past_print s.
Proof.
  intros HA Hr. rewrite start_conc in Hr.
  destruct (run_conc_on ls (result_satisfies Q) (fun a => Inv ls a /\ Printed ls Q a))
    with (acts := acts) (a := a_start) (s := s) as (a & [_ HP] & Hs); try assumption.
  - intros a act a' [HI HP] Hact Hstep. split.
    + eapply Inv_step; eauto.
    + eapply Printed_step; eauto.
  - split; [apply Inv_start|]. split; [constructor|]. exists []. cbn. auto.
  - destruct HP as [_ (reports & Hout & Hrep & Hlen)]. exists reports.
    assert (Hso : stdout s = a_out a) by (destruct Hs as [->|[_ ->]]; reflexivity).
    assert (Hc : count_past_print s = count_past_print (conc ls a))
      by (destruct Hs as [->|[_ ->]]; reflexivity).
    rewrite Hso, Hc, count_past_print_conc. auto.
Qed.

Lemma output_is_sound_witness :
  exists s,
    run (start main)
      [ARun O; ARun O; ARun O; ARun O; ARun O; ARun O;
       ARun 2%nat; ARun 1%nat; AGetDone 2%nat (Http.completed 200); ARun 2%nat;
       AGetDone 1%nat (Http.completed 404); ARun 1%nat; AComm 2%nat O]
    = Some s /\
    stdout s = join_lines [Fmt.Sprintln ["http://facebook.com"; "is up!"];
                           Fmt.Sprintln ["http://google.com"; "is up!"]] /\
    exists reports : list (string * Http.Result),
      stdout s = join_lines (map report_line reports) /\
      Forall (fun w => fst w ∈ links /\ snd (snd w) = None) reports /\
      length reports = count_past_print s.
Proof.
  eexists. split; [vm_compute; reflexivity|]. split; [reflexivity|].
  match goal with
  | |- exists reports, stdout ?s = _ /\ _ =>
      apply (output_is_sound links (fun r => snd r = None)
               [ARun O; ARun O; ARun O; ARun O; ARun O; ARun O;
                ARun 2%nat; ARun 1%nat; AGetDone 2%nat (Http.completed 200); ARun 2%nat;
                AGetDone 1%nat (Http.completed 404); ARun 1%nat; AComm 2%nat O] s)
  end.
  - repeat constructor.
  - reflexivity.
Defined.

(** ** The rotation goes on *)

Section Rotation.
Variable ls : list string.

Lemma leads_refl a : leads ls a 0 a.
Proof. exists []. split; [reflexivity|lia]. Qed.

Lemma leads_trans a d1 b d2 c :
  leads ls a d1 b -> leads ls b d2 c -> leads ls a (d1 + d2) c.
Proof.
  intros (acts1 & H1 & T1) (acts2 & H2 & T2). exists (acts1 ++ acts2).
  rewrite run_app, H1. split; [exact H2|lia].
Qed.

Lemma leads_step a act a' d :
  astep ls a act = Some a' -> a_now a' = a_now a + d -> leads ls a d a'.
Proof.
  intros Hs Ht. exists [act]. split; [|exact Ht].
  cbn [run]. rewrite step_conc. unfold refined.
  destruct act; try (by rewrite Hs). discriminate.
Qed.

(** Main gets to the receive by itself, in no time, launching what it still
    has to launch and leaving every other goroutine as it is. *)
Lemma main_reaches_receive a :
  exists a',
    leads ls a 0 a' /\ a_main a' = MSpawning [] /\
    a_workers a' = a_workers a ++ to_launch ls (a_main a).
Proof.
  destruct a as [t m ws out].
  assert (Hspawn : forall rest,
            leads ls (mkAbs t (MSpawning rest) ws out) 0
              (mkAbs t (MSpawning []) (ws ++ map (fun l => (l, PCheck)) rest) out)).
  { intros rest. exists (repeat (ARun O) (length rest)). rewrite spawn_all.
    split; [reflexivity|]. cbn. lia. }
  destruct m as [|rest|l]; cbn [a_main a_workers to_launch].
  - exists (mkAbs t (MSpawning []) (ws ++ map (fun l => (l, PCheck)) ls) out).
    split; [|split; reflexivity].
    change 0 with (0 + 0). eapply leads_trans; [|apply Hspawn].
    apply (leads_step _ (ARun O)); [reflexivity|]. cbn. lia.
  - exists (mkAbs t (MSpawning []) (ws ++ map (fun l => (l, PCheck)) rest) out).
    split; [apply Hspawn|]. split; reflexivity.
  - exists (mkAbs t (MSpawning []) (ws ++ [(l, PRelaunch)]) out).
    split; [|split; reflexivity].
    apply (leads_step _ (ARun O)); [reflexivity|]. cbn. lia.
Qed.

Lemma from_sleeping a (j : nat) l u :
  a_workers a !! j = Some (l, PSleeping u) ->
  exists a', leads ls a (Z.max 0 (u - a_now a)) a' /\
             a_main a' = a_main a /\
             a_workers a' !! j = Some (l, PCheck).
Proof.
  intros Hj. destruct a as [t m ws out]. cbn in Hj |- *.
  assert (Hwake : forall t', u <= t' ->
            astep ls (mkAbs t' m ws out) (AWake (S j)) =
            Some (mkAbs t' m (<[j := (l, PCheck)]> ws) out)).
  { intros t' Ht'. cbn. rewrite Hj. apply Z.leb_le in Ht'. by rewrite Ht'. }
  exists (mkAbs (Z.max t u) m (<[j := (l, PCheck)]> ws) out). split; [|split].
  - destruct (Z.le_gt_cases u t) as [Hle|Hgt].
    + rewrite Z.max_l by lia. rewrite Z.max_l by lia.
      apply (leads_step _ (AWake (S j))); [by apply Hwake|]. cbn. lia.
    + rewrite Z.max_r by lia. rewrite Z.max_r by lia.
      replace (u - t) with ((u - t) + 0) by lia.
      apply (leads_trans _ _ (mkAbs u m ws out)).
      * apply (leads_step _ (ATick (u - t))); [|cbn; lia].
        cbn. destruct (0 <? u - t) eqn:Hd; [|apply Z.ltb_ge in Hd; lia].
        do 2 f_equal. lia.
      * apply (leads_step _ (AWake (S j))); [apply Hwake; lia|]. cbn. lia.
  - reflexivity.
  - cbn. apply list_lookup_insert_eq. eapply lookup_lt_Some. exact Hj.
Qed.

Lemma from_relaunch a (j : nat) l :
  a_workers a !! j = Some (l, PRelaunch) ->
  exists a', leads ls a delay a' /\ a_workers a' !! j = Some (l, PCheck).
Proof.
  intros Hj. destruct a as [t m ws out]. cbn in Hj.
  destruct (from_sleeping (mkAbs t m (<[j := (l, PSleeping (t + delay))]> ws) out)
              j l (t + delay)) as (a' & Hl & _ & Hc).
  { cbn. apply list_lookup_insert_eq. eapply lookup_lt_Some. exact Hj. }
  exists a'. split; [|exact Hc].
  cbn [a_now] in Hl. replace (Z.max 0 (t + delay - t)) with delay in Hl
    by (change delay with 5000000000; lia).
  replace delay with (0 + delay) at 1 by lia.
  eapply leads_trans; [|exact Hl].
  apply (leads_step _ (ARun (S j))); [|cbn; lia]. cbn. by rewrite Hj.
Qed.

Lemma from_hold a l :
  a_main a = MHold l ->
  exists a' j, leads ls a delay a' /\ a_workers a' !! j = Some (l, PCheck).
Proof.
  intros Hm. destruct a as [t m ws out]. cbn in Hm. subst m.
  destruct (from_relaunch (mkAbs t (MSpawning []) (ws ++ [(l, PRelaunch)]) out)
              (length ws) l) as (a' & Hl & Hc).
  { cbn. by apply list_lookup_middle. }
  exists a', (length ws). split; [|exact Hc].
  replace delay with (0 + delay) at 1 by lia.
  eapply leads_trans; [|exact Hl].
  apply (leads_step _ (ARun O)); [reflexivity|]. cbn. lia.
Qed.

Lemma from_send a (j : nat) l :
  a_workers a !! j = Some (l, PSend) ->
  exists a' j', leads ls a delay a' /\ a_workers a' !! j' = Some (l, PCheck).
Proof.
  intros Hj. destruct (main_reaches_receive a) as (b & Hab & Hmain & Hws).
  assert (Hjb : a_workers b !! j = Some (l, PSend))
    by (rewrite Hws; by apply lookup_app_l_Some).
  destruct b as [t m ws out]. cbn in Hmain, Hjb. subst m.
  destruct (from_hold (mkAbs t (MHold l) (<[j := (l, PDone)]> ws) out) l eq_refl)
    as (a' & j' & Hl & Hc).
  exists a', j'. split; [|exact Hc].
  replace delay with (0 + (0 + delay)) at 1 by lia.
  eapply leads_trans; [exact Hab|]. eapply leads_trans; [|exact Hl].
  apply (leads_step _ (AComm (S j) O)); [|cbn; lia]. cbn. by rewrite Hjb.
Qed.

Lemma from_report a (j : nat) l r :
  a_workers a !! j = Some (l, PReport r) ->
  exists a' j', leads ls a delay a' /\ a_workers a' !! j' = Some (l, PCheck).
Proof.
  intros Hj. destruct a as [t m ws out]. cbn in Hj.
  destruct (from_send (mkAbs t m (<[j := (l, PSend)]> ws)
                         (String.append out (phase_output l r))) j l)
    as (a' & j' & Hl & Hc).
  { cbn. apply list_lookup_insert_eq. eapply lookup_lt_Some. exact Hj. }
  exists a', j'. split; [|exact Hc].
  replace delay with (0 + delay) at 1 by lia.
  eapply leads_trans; [|exact Hl].
  apply (leads_step _ (ARun (S j))); [|cbn; lia]. cbn. by rewrite Hj.
Qed.

Lemma from_probing a (j : nat) l r :
  a_workers a !! j = Some (l, PProbing) ->
  exists a' j',
    leads ls (set_worker a j (l, PReport r)) delay a' /\
    astep ls a (AGetDone (S j) r) = Some (set_worker a j (l, PReport r)) /\
    a_workers a' !! j' = Some (l, PCheck).
Proof.
  intros Hj.
  destruct (from_report (set_worker a j (l, PReport r)) j l r) as (a' & j' & Hl & Hc).
  { cbn. apply list_lookup_insert_eq. eapply lookup_lt_Some. exact Hj. }
  exists a', j'. split; [exact Hl|]. split; [|exact Hc]. cbn. by rewrite Hj.
Qed.

Lemma from_main a l :
  l ∈ main_tokens ls (a_main a) ->
  exists a' j d, 0 <= d <= delay /\ leads ls a d a' /\
                 a_workers a' !! j = Some (l, PCheck).
Proof.
  intros Hl.
  assert (Hd : 0 <= delay) by (change delay with 5000000000; lia).
  assert (Hlaunch : forall rest, l ∈ rest -> a_main a = MStart /\ rest = ls \/
                                 a_main a = MSpawning rest ->
            exists a' j d, 0 <= d <= delay /\ leads ls a d a' /\
                           a_workers a' !! j = Some (l, PCheck)).
  { intros rest Hin Hm.
    destruct (main_reaches_receive a) as (b & Hab & _ & Hws).
    apply list_elem_of_lookup in Hin as [k Hk].
    exists b, (length (a_workers a) + k)%nat, 0. split; [lia|]. split; [exact Hab|].
    rewrite Hws, lookup_app_r by lia.
    replace (length (a_workers a) + k - length (a_workers a))%nat with k by lia.
    assert (Hto : to_launch ls (a_main a) = map (fun l => (l, PCheck)) rest)
      by (destruct Hm as [[-> ->]| ->]; reflexivity).
    rewrite Hto.
    change (((fun l => (l, PCheck)) <$> rest) !! k = Some (l, PCheck)).
    by rewrite list_lookup_fmap, Hk. }
  destruct (a_main a) as [|rest|x] eqn:Hm; cbn in Hl.
  - apply (Hlaunch ls Hl). by left.
  - apply (Hlaunch rest Hl). by right.
  - apply list_elem_of_singleton in Hl as ->.
    destruct (from_hold a x Hm) as (a' & j & Hlead & Hc).
    exists a', j, delay. split; [lia|]. auto.
Qed.

(** From every shape, a goroutine can get to the call of [http.Get] on any
    link the shape still owes a check, within [delay] on the clock if the
    timers are as [TimerBound] says. *)
Lemma to_check a l :
  TimerBound a -> l ∈ tokens ls a ->
  exists a' j d, 0 <= d <= delay /\ leads ls a d a' /\
                 a_workers a' !! j = Some (l, PCheck).
Proof.
  intros [Hnow Htim] Hl.
  assert (Hd : 0 <= delay) by (change delay with 5000000000; lia).
  unfold tokens in Hl. apply elem_of_app in Hl as [Hl|Hl]; [by apply from_main|].
  apply list_elem_of_omap in Hl as ([x ph] & Hin & Hact).
  apply list_elem_of_lookup in Hin as [j Hj].
  destruct ph as [| |r| | | |u]; cbn in Hact; try discriminate;
    injection Hact as ->.
  - exists a, j, 0. split; [lia|]. split; [apply leads_refl|exact Hj].
  - destruct (from_probing a j l (None, None) Hj) as (a' & j' & Hlead & Hstep & Hc).
    exists a', j', delay. split; [lia|]. split; [|exact Hc].
    replace delay with (0 + delay) at 1 by lia.
    eapply leads_trans; [|exact Hlead].
    apply (leads_step _ (AGetDone (S j) (None, None))); [exact Hstep|].
    cbn. lia.
  - destruct (from_report a j l r Hj) as (a' & j' & Hlead & Hc).
    exists a', j', delay. split; [lia|]. auto.
  - destruct (from_send a j l Hj) as (a' & j' & Hlead & Hc).
    exists a', j', delay. split; [lia|]. auto.
  - destruct (from_relaunch a j l Hj) as (a' & Hlead & Hc).
    exists a', j, delay. split; [lia|]. auto.
  - destruct (from_sleeping a j l u Hj) as (a' & Hlead & _ & Hc).
    exists a', j, (Z.max 0 (u - a_now a)). split; [|auto].
    pose proof (Forall_lookup_1 _ _ _ _ Htim Hj u eq_refl) as Hu. lia.
Qed.

End Rotation.

Lemma adead_done a (j : nat) w :
  adead a = true -> a_workers a !! j = Some w -> is_done w = true.
Proof.
  unfold adead. destruct (a_main a) as [|[|x rest]|x]; try discriminate.
  intros Hall Hj. rewrite forallb_forall in Hall. apply Hall.
  apply list_elem_of_In. eapply list_elem_of_lookup_2. exact Hj.
Qed.

(** No link drops out of the rotation, whatever its checks have returned:
    from every state [main] reaches and for every configured link there is a
    schedule, taking at most [delay] on the clock, after which a goroutine
    is about to call [http.Get] on the link. *)
Theorem rotation_goes_on ls acts s l :
  run (start (main_with ls)) acts = Some s -> l ∈ ls ->
  exists acts' s' j,
    run s acts' = Some s' /\
    threads s' !! j = Some (Running (checkLink l O)) /\
    now s <= now s' <= now s + delay.
Proof.
  intros Hr Hl. rewrite start_conc in Hr.
  assert (Hne : ls <> []) by (intros ->; by apply elem_of_nil in Hl).
  destruct (run_conc_awake ls (fun a => Inv ls a /\ TimerBound a))
    with (acts := acts) (a := a_start) (s := s) as (a & [HI HT] & ->).
  - intros a act a' [HI HT] Hs. split.
    + eapply Inv_step; eauto.
    + eapply TimerBound_step; eauto.
  - intros a [HI _]. by apply (Inv_awake ls).
  - split; [apply Inv_start|]. unfold TimerBound. cbn. split; [lia|constructor].
  - exact Hr.
  - assert (Hin : l ∈ tokens ls a) by (unfold Inv in HI; by rewrite HI).
    destruct (to_check ls a l HT Hin) as (a' & j & d & Hd & (acts' & Hrun & Hnow) & Hc).
    exists acts', (conc ls a'), (S j). split; [exact Hrun|]. split.
    + rewrite lookup_worker, Hc. reflexivity.
    + cbn [now conc]. lia.
Qed.

Lemma rotation_goes_on_witness :
  exists s,
    run (start main)
      (repeat (ARun O) 6 ++ [ARun 4%nat; AGetDone 4%nat (Http.failed "no such host")])
    = Some s /\
    exists acts' s' j,
      run s acts' = Some s' /\
      threads s' !! j = Some (Running (checkLink "http://golang.org" O)) /\
      now s <= now s' <= now s + delay.
Proof.
  eexists. split; [vm_compute; reflexivity|].
  match goal with
  | |- exists acts' s' j, run ?s _ = _ /\ _ =>
      apply (rotation_goes_on links
               (repeat (ARun O) 6 ++ [ARun 4%nat; AGetDone 4%nat (Http.failed "no such host")])
               s "http://golang.org" eq_refl)
  end.
  apply (bool_decide_unpack _). vm_compute. exact I.
Defined.

(** The delay is attained: when a request for a link is in flight, then
    however it ends there is a schedule on which a goroutine has the next
    request for that link in flight exactly [delay] after the first one
    returned. *)
Theorem delay_is_attained ls acts s i l k r :
  run (start (main_with ls)) acts = Some s ->
  threads s !! i = Some (Probing l k) ->
  exists acts' s' j,
    run s (AGetDone i r :: acts') = Some s' /\
    threads s' !! j = Some (Probing l (report l O)) /\
    now s' = now s + delay.
Proof.
  intros Hr Hi. destruct (reach_any ls acts s Hr) as (a & HI & Hs).
  assert (Hth : threads s = threads (conc ls a)) by (destruct Hs as [->|[_ ->]]; reflexivity).
  rewrite Hth in Hi.
  apply conc_thread_inv in Hi as [[-> Hm]|(j0 & [x ph] & -> & Hw & Ht)].
  { destruct (a_main a) as [|[|y rest]|y]; discriminate. }
  destruct ph as [| |[resp [e|]]| | | |u]; try discriminate.
  cbn in Ht. injection Ht as Hx _. subst x.
  destruct Hs as [->|[Hd _]]; [|by pose proof (adead_done a j0 _ Hd Hw)].
  destruct (from_probing ls a j0 l r Hw) as (a' & j' & (acts1 & Hrun & Hnow) & Hstep & Hc).
  exists (acts1 ++ [ARun (S j')]), (conc ls (set_worker a' j' (l, PProbing))), (S j').
  split; [|split].
  - cbn [run]. rewrite step_conc. cbn [refined]. rewrite Hstep. cbn [fmap option_fmap option_map].
    rewrite run_app, Hrun. cbn [run]. rewrite step_conc. cbn. by rewrite Hc.
  - rewrite lookup_worker. cbn.
    rewrite list_lookup_insert_eq by (eapply lookup_lt_Some; exact Hc). reflexivity.
  - cbn in Hnow |- *. exact Hnow.
Qed.

Lemma delay_is_attained_witness :
  exists s,
    run (start main) (repeat (ARun O) 6 ++ [ATick 40; ARun 3%nat]) = Some s /\
    exists acts' s' j,
      run s (AGetDone 3%nat (Http.completed 503) :: acts') = Some s' /\
      threads s' !! j =
        Some (Probing "http://stackoverflow.com" (report "http://stackoverflow.com" O)) /\
      now s' = now s + delay.
Proof.
  eexists. split; [vm_compute; reflexivity|].
  match goal with
  | |- exists acts' s' j, run ?s _ = _ /\ _ =>
      exact (delay_is_attained links (repeat (ARun O) 6 ++ [ATick 40; ARun 3%nat])
               s 3%nat "http://stackoverflow.com" (report "http://stackoverflow.com" O)
               (Http.completed 503) eq_refl eq_refl)
  end.
Defined.
